(** * axios-error-manager: the handler registry and its dispatch procedure

    A shallow embedding of [src/index.ts]: the class [ErrorHandlerRegistry]
    (a map of handlers with an optional parent), the structural predicate
    [isErrorHandlerObject], the dispatch methods [handleError],
    [handleErrorObject], [responseErrorHandler], [handleAxiosError] and the
    factory [createDealWith].

    Conventions of the embedding.
    - JavaScript values of type [any] / [unknown] are the type [value].  The
      code does two things to a number, converting it with [String] and
      testing it for truth, so a number is given by these two observations
      and every double has its representative.  Arrays and functions do not
      occur as data, and objects keep [Object.prototype.toString].
    - A method that reads or could write [this] and that calls user callbacks
      is a computation of the monad [M]: it takes a [State] (the receiver
      [this] and the trace of callback invocations so far) and gives back an
      [Outcome] (a returned value or a thrown one) and the final [State].
    - User callbacks are functions of their arguments, and each of them may
      throw: a resolver function returns its result or throws; a notifier
      returns or throws, and its invocation is recorded in the trace (what
      the module's own [defaultNotifier] writes for a recorded call is given
      by [defaultNotifier_run]); a [before]/[after] hook is handed the
      descriptor itself: it throws, or returns after writing properties of
      it, and the rest of [handleErrorObject] reads the descriptor as the
      hook left it.
    - A dispatch executes at most one descriptor and ends with it, so within
      a call a descriptor is read by nothing after the execution that its
      hooks write.  Every statement below is about one call: [this] records
      which handler each key is bound to, the parent and the notifier, and
      the writes of a hook to a registered descriptor are followed to the
      end of the call, not into a later one.  A callback reaches what it is
      handed: it does not write the failure, and it has no handle on the
      registry. *)

From Stdlib Require Import String List Bool Lia.
From stdpp Require Import base option list gmap strings.

Local Set Warnings "-register-all".
Local Open Scope string_scope.
Local Open Scope list_scope.

(** ** JavaScript values *)

(** A number, by what the code observes of it: [String(n)], and whether it
    is truthy (neither zero nor NaN). *)
Record number := {
  number_text : string;
  number_truthy : bool }.

(** A number that is not zero, by its text: [nonzero "404"] is [404]. *)
Definition nonzero (text : string) : number :=
  {| number_text := text; number_truthy := true |}.

Inductive value : Type :=
  | VUndefined
  | VNull
  | VBoolean (b : bool)
  | VNumber (n : number)
  | VString (s : string)
  | VObject (fields : list (string * value)).

(** A plain object: its own enumerable properties in insertion order. *)
Abbreviation object := (list (string * value)).

(** ToBoolean: the test of [if (v)], [!v], [a && b], [c ? x : y]. *)
Definition truthy (v : value) : bool :=
  match v with
  | VUndefined | VNull => false
  | VBoolean b => b
  | VNumber n => number_truthy n
  | VString s => negb (String.eqb s "")
  | VObject _ => true
  end.

(** [typeof v === 'string'] *)
Definition typeof_string (v : value) : bool :=
  match v with VString _ => true | _ => false end.

(** [v !== undefined] *)
Definition is_defined (v : value) : bool :=
  match v with VUndefined => false | _ => true end.

(** [String(v)] (ToString), for objects that keep [Object.prototype.toString]. *)
Definition String_ (v : value) : string :=
  match v with
  | VUndefined => "undefined"
  | VNull => "null"
  | VBoolean true => "true"
  | VBoolean false => "false"
  | VNumber n => number_text n
  | VString s => s
  | VObject _ => "[object Object]"
  end.

(** [o[key]] on a plain object. *)
Fixpoint obj_get (key : string) (o : object) : value :=
  match o with
  | [] => VUndefined
  | (k, v) :: o' => if String.eqb k key then v else obj_get key o'
  end.

(** [key in o] on a plain object. *)
Fixpoint obj_has (key : string) (o : object) : bool :=
  match o with
  | [] => false
  | (k, _) :: o' => String.eqb k key || obj_has key o'
  end.

(** [o[key] = v]: an existing property keeps its place, a new one is appended. *)
Fixpoint obj_set (key : string) (v : value) (o : object) : object :=
  match o with
  | [] => [(key, v)]
  | (k, w) :: o' =>
      if String.eqb k key then (k, v) :: o' else (k, w) :: obj_set key v o'
  end.

(** [{ ...base, ...ext }]: the properties of [ext] are assigned in order. *)
Definition obj_spread (base ext : object) : object :=
  fold_left (fun acc kv => obj_set kv.1 kv.2 acc) ext base.

(** [v?.key] where [v] is data of type [Record<string, any>]: undefined on
    undefined, null and primitives, the property on an object. *)
Definition prop (v : value) (key : string) : value :=
  match v with
  | VObject o => obj_get key o
  | _ => VUndefined
  end.

(** [a ?? b] *)
Definition nullish (a b : value) : value :=
  match a with
  | VUndefined | VNull => b
  | _ => a
  end.

(** An optional string or boolean property (absent is undefined) as a value. *)
Definition of_string (s : option string) : value :=
  match s with Some s => VString s | None => VUndefined end.

Definition of_number (n : option number) : value :=
  match n with Some n => VNumber n | None => VUndefined end.

Definition of_boolean (b : option bool) : value :=
  match b with Some b => VBoolean b | None => VUndefined end.

(** ** Failures: the [error: unknown] handed to the registry *)

(** The augmented [AxiosRequestConfig]: [raw?: boolean], [silent?: boolean]. *)
Record AxiosRequestConfig := {
  config_raw : option bool;
  config_silent : option bool }.

(** [AxiosResponse]: [data] is [any]; [status] is a number, left out by some
    callers. *)
Record AxiosResponse := {
  response_data : value;
  response_status : option number }.

Record AxiosError := {
  error_message : string;
  error_name : string;
  error_code : option string;
  error_config : option AxiosRequestConfig;
  error_response : option AxiosResponse }.

(** What [responseErrorHandler] tells apart: a value on which [isAxiosError]
    holds, another instance of [Error], and every other value ([null],
    [undefined], a thrown string, a plain object). *)
Inductive Failure : Type :=
  | AxiosFailure (error : AxiosError)
  | ErrorFailure (name message : string)
  | OtherFailure (v : value).

(** [error === null] *)
Definition is_null (error : Failure) : bool :=
  match error with OtherFailure VNull => true | _ => false end.

Definition isAxiosError (error : Failure) : bool :=
  match error with AxiosFailure _ => true | _ => false end.

(** [error instanceof Error] ([AxiosError] extends [Error]). *)
Definition instanceof_Error (error : Failure) : bool :=
  match error with AxiosFailure _ | ErrorFailure _ _ => true | OtherFailure _ => false end.

(** ** What a call can throw *)

Inductive Thrown : Type :=
  | ThrowApiError (message : string)    (* throw new ApiError(message) *)
  | ThrowError (message : string)       (* throw new Error(message) *)
  | ThrowFailure (error : Failure).     (* throw error: the object itself *)

(** The [message] of [new ApiError(m)]: [Error] leaves it empty when [m] is
    undefined and stores [String(m)] otherwise. *)
Definition ApiError_message (m : option value) : string :=
  match m with
  | None | Some VUndefined => ""
  | Some v => String_ v
  end.

(** ** Handlers *)

(** [ErrorHandlerObject], with every property optional as it is at run time
    ([isErrorHandlerObject] only asks for one of them).  [message] is declared
    a string; the descriptor that [handleAxiosError] builds from
    [data?.message ?? data?.description ?? error.message] can hold any value
    there.  [H] is the type of the hooks. *)
Record ErrorHandlerObjectOf (H : Type) := {
  message : option value;
  before : option H;
  after : option H;
  silent : option bool;
  notify : option object }.

Arguments message {H} _.
Arguments before {H} _.
Arguments after {H} _.
Arguments silent {H} _.
Arguments notify {H} _.

(** What a hook reads of the descriptor it is called with: the data, and
    which hooks are present. *)
Definition view {H} (o : ErrorHandlerObjectOf H) : ErrorHandlerObjectOf unit :=
  {| message := message o;
     before := (fun _ => tt) <$> before o;
     after := (fun _ => tt) <$> after o;
     silent := silent o;
     notify := notify o |}.

(** What a hook writes to the descriptor it is called with: for each
    property, nothing ([None]) or its new content ([Some c], where [c] is
    [None] for a property that is deleted). *)
Record WritesOf (H : Type) := {
  write_message : option (option value);
  write_before : option (option H);
  write_after : option (option H);
  write_silent : option (option bool);
  write_notify : option (option object) }.

Arguments write_message {H} _.
Arguments write_before {H} _.
Arguments write_after {H} _.
Arguments write_silent {H} _.
Arguments write_notify {H} _.

(** [(error, options) => void]: throws, or returns after its writes to
    [options]. *)
Inductive Hook : Type :=
  | hook (call : Failure -> ErrorHandlerObjectOf unit -> Thrown + WritesOf Hook).

Definition ErrorHandlerObject : Type := ErrorHandlerObjectOf Hook.

(** The descriptor after the writes of a hook. *)
Definition apply_writes (w : WritesOf Hook) (o : ErrorHandlerObject)
  : ErrorHandlerObject :=
  {| message := default (message o) (write_message w);
     before := default (before o) (write_before w);
     after := default (after o) (write_after w);
     silent := default (silent o) (write_silent w);
     notify := default (notify o) (write_notify w) |}.

(** A hook that writes nothing. *)
Definition no_writes : WritesOf Hook :=
  {| write_message := None; write_before := None; write_after := None;
     write_silent := None; write_notify := None |}.

(** [ErrorHandlerObject | void | boolean] *)
Inductive ResolverResult : Type :=
  | ResultObject (o : ErrorHandlerObject)
  | ResultVoid
  | ResultBoolean (b : bool).

(** [(error) => ErrorHandlerObject | void | boolean]: throws or returns. *)
Definition ErrorHandlerFunction : Type := Failure -> Thrown + ResolverResult.

(** [ErrorHandler = string | ErrorHandlerFunction | ErrorHandlerObject] *)
Inductive ErrorHandler : Type :=
  | HandlerString (s : string)
  | HandlerFunction (f : ErrorHandlerFunction)
  | HandlerObject (o : ErrorHandlerObject).

(** [key in value] for the five recognised keys. *)
Definition has_key (key : string) (o : ErrorHandlerObject) : bool :=
  if String.eqb key "message" then bool_decide (is_Some (message o))
  else if String.eqb key "after" then bool_decide (is_Some (after o))
  else if String.eqb key "before" then bool_decide (is_Some (before o))
  else if String.eqb key "silent" then bool_decide (is_Some (silent o))
  else if String.eqb key "notify" then bool_decide (is_Some (notify o))
  else false.

Definition isErrorHandlerObject (value : ResolverResult) : bool :=
  match value with
  | ResultObject o =>
      existsb (fun key => has_key key o)
        ["message"; "after"; "before"; "silent"; "notify"]
  | ResultVoid | ResultBoolean _ => false
  end.

(** ToBoolean of a handler or of [undefined]: only the empty string and
    [undefined] are falsy. *)
Definition handler_truthy (handler : option ErrorHandler) : bool :=
  match handler with
  | None => false
  | Some (HandlerString s) => truthy (VString s)
  | Some (HandlerFunction _) | Some (HandlerObject _) => true
  end.

(** ** The registry *)

(** [Notifier]: [defaultNotifier] is the module's own (alert or
    console.error); a notifier of the caller has an identity and, for the
    object it is called with, returns ([None]) or throws. *)
Inductive Notifier : Type :=
  | defaultNotifier
  | customNotifier (id : nat) (call : object -> option Thrown).

(** What calling the notifier throws, if it throws. *)
Definition notifier_throws (n : Notifier) (options : object) : option Thrown :=
  match n with
  | defaultNotifier => None
  | customNotifier _ call => call options
  end.

Inductive ErrorHandlerRegistry : Type := Registry {
  handlers : gmap string ErrorHandler;
  parent : option ErrorHandlerRegistry;
  notifier : Notifier }.

(** [find(seek)]: the local entry if it is truthy, else the parent's answer
    ([this.parent?.find(seek)]), else undefined. *)
Fixpoint find (r : ErrorHandlerRegistry) (seek : string) : option ErrorHandler :=
  let handler := handlers r !! seek in
  if handler_truthy handler then handler
  else match parent r with
       | Some p => find p seek
       | None => None
       end.

(** ** The monad of the methods *)

(** What the outside world observes of a call: the callbacks the registry
    invoked, in order, with their arguments. *)
Inductive Event : Type :=
  | BeforeCalled (error : Failure) (options : ErrorHandlerObjectOf unit)
  | NotifierCalled (notifier : Notifier) (options : object)
  | AfterCalled (error : Failure) (options : ErrorHandlerObjectOf unit).

Record State := {
  this : ErrorHandlerRegistry;
  trace : list Event }.

Inductive Outcome (A : Type) : Type :=
  | Returned (a : A)
  | Threw (t : Thrown).

Arguments Returned {A} a.
Arguments Threw {A} t.

Definition M (A : Type) : Type := State -> Outcome A * State.

Definition ret {A} (a : A) : M A := fun s => (Returned a, s).

Definition bind {A B} (m : M A) (k : A -> M B) : M B := fun s =>
  match m s with
  | (Returned a, s') => k a s'
  | (Threw t, s') => (Threw t, s')
  end.

Declare Scope M_scope.
Delimit Scope M_scope with M.
Bind Scope M_scope with M.
Notation "x ← y ; z" := (bind y (fun x => z)) : M_scope.
Notation "x ;; z" := (bind x (fun _ => z)) : M_scope.
Local Open Scope M_scope.

Definition throw {A} (t : Thrown) : M A := fun s => (Threw t, s).

(** Read a field of [this]. *)
Definition gets {A} (f : ErrorHandlerRegistry -> A) : M A :=
  fun s => (Returned (f (this s)), s).

(** Write [this]. *)
Definition modify (f : ErrorHandlerRegistry -> ErrorHandlerRegistry) : M unit :=
  fun s => (Returned tt, {| this := f (this s); trace := trace s |}).

(** Record the invocation of a callback. *)
Definition emit (e : Event) : M unit :=
  fun s => (Returned tt, {| this := this s; trace := trace s ++ [e] |}).

(** ** Registration

    The setters return [this] for chaining; here they return nothing and the
    receiver is in the state. *)

(** [fn] is [None] when the argument is not a function. *)
Definition setNotifier (fn : option Notifier) : M unit :=
  match fn with
  | Some fn =>
      modify (fun r =>
        {| handlers := handlers r; parent := parent r; notifier := fn |})
  | None => ret tt
  end.

Definition register (key : string) (handler : ErrorHandler) : M unit :=
  modify (fun r =>
    {| handlers := <[key := handler]> (handlers r);
       parent := parent r; notifier := notifier r |}).

Definition unregister (key : string) : M unit :=
  modify (fun r =>
    {| handlers := delete key (handlers r);
       parent := parent r; notifier := notifier r |}).

(** [input] is [Object.entries(input)], in iteration order. *)
Fixpoint registerMany (input : list (string * ErrorHandler)) : M unit :=
  match input with
  | [] => ret tt
  | (key, value) :: input' => register key value ;; registerMany input'
  end.

(** The registry that [m] leaves when run on [r]. *)
Definition after_call {A} (m : M A) (r : ErrorHandlerRegistry)
  : ErrorHandlerRegistry :=
  this (snd (m {| this := r; trace := [] |})).

(** [new ErrorHandlerRegistry(parent, input, notifier)] *)
Definition new_ErrorHandlerRegistry (parent : option ErrorHandlerRegistry)
  (input : option (list (string * ErrorHandler))) (notifier : option Notifier)
  : ErrorHandlerRegistry :=
  let this := {| handlers := ∅; parent := parent;
                 notifier := default defaultNotifier notifier |} in
  match input with
  | Some input => after_call (registerMany input) this
  | None => this
  end.

(** ** Dispatch *)

(** [options.before?.(error, options)] and [options.after?.(error, options)]:
    the result is [options] as the hook left it. *)
Definition call_hook (called : Failure -> ErrorHandlerObjectOf unit -> Event)
  (h : option Hook) (error : Failure) (options : ErrorHandlerObject)
  : M ErrorHandlerObject :=
  match h with
  | None => ret options
  | Some (hook f) =>
      emit (called error (view options)) ;;
      match f error (view options) with
      | inl t => throw t
      | inr w => ret (apply_writes w options)
      end
  end.

(** [this.notifier(options)] *)
Definition call_notifier (options : object) : M unit :=
  n ← gets notifier;
  emit (NotifierCalled n options) ;;
  match notifier_throws n options with
  | Some t => throw t
  | None => ret tt
  end.

(** The argument of the notifier:
    [{ type: 'negative', message: options.message, ...(options.notify ?? {}) }] *)
Definition NotifierOptions (options : ErrorHandlerObject) : object :=
  obj_spread
    [("type", VString "negative"); ("message", default VUndefined (message options))]
    (default [] (notify options)).

(** Its return type is [never]: the result type is arbitrary.  [options] is
    read again after each hook: [options1] and [options2] are the same object
    after [before] and after [after]. *)
Definition handleErrorObject {A} (error : Failure) (options : ErrorHandlerObject)
  : M A :=
  options1 ← call_hook BeforeCalled (before options) error options;
  (if negb (truthy (of_boolean (silent options1))) then
     call_notifier (NotifierOptions options1)
   else ret tt) ;;
  options2 ← call_hook AfterCalled (after options1) error options1;
  throw (ThrowApiError (ApiError_message (message options2))).

(** [seek: string | Array<string | undefined>]; the entries of the array that
    [handleAxiosError] builds are [any]. *)
Inductive Seek : Type :=
  | SeekKey (key : string)
  | SeekKeys (keys : list value).

(** [Array.prototype.some] with a callback of the monad. *)
Fixpoint some {A} (f : A -> M bool) (l : list A) : M bool :=
  match l with
  | [] => ret false
  | x :: l' => b ← f x; if b then ret true else some f l'
  end.

(** [handleError] on a key that is not an array (lines 160-177). *)
Definition handleError_key (seek : string) (error : Failure) : M bool :=
  handler ← gets (fun r => find r (String_ (VString seek)));
  if negb (handler_truthy handler) then ret false
  else match handler with
  | Some (HandlerString handler) =>
      handleErrorObject (A := unit) error
        {| message := Some (VString handler); before := None; after := None;
           silent := None; notify := None |} ;;
      ret true
  | Some (HandlerFunction handler) =>
      match handler error with
      | inl t => throw t
      | inr (ResultObject result) =>
          if isErrorHandlerObject (ResultObject result) then
            handleErrorObject (A := unit) error result ;;
            ret true
          else ret false
      | inr ResultVoid | inr (ResultBoolean _) => ret false
      end
  | Some (HandlerObject handler) =>
      if isErrorHandlerObject (ResultObject handler) then
        handleErrorObject (A := unit) error handler ;;
        ret true
      else ret false
  | None => ret false
  end.

(** The recursive call of the array branch is on [String(key)], a string. *)
Definition handleError (seek : Seek) (error : Failure) : M bool :=
  match seek with
  | SeekKeys seek =>
      some (fun key =>
              if is_defined key then handleError_key (String_ key) error
              else ret false) seek
  | SeekKey seek => handleError_key seek error
  end.

(** The candidate keys of an Axios failure (the local [seekers], lines 228-234). *)
Definition seekers (error : AxiosError) : list value :=
  let response := error_response error in
  let data := default VUndefined (response_data <$> response) in
  [ prop data "code";
    of_string (error_code error);
    VString (error_name error);
    if truthy (prop data "status")
    then VString (String_ (prop data "status")) else VUndefined;
    if truthy (of_number (response ≫= response_status))
    then VString (String_ (of_number (response ≫= response_status)))
    else VUndefined ].

(** [handleAxiosError] after the raw check (lines 224-248). *)
Definition handleAxiosError_resolve (error : AxiosError) : M value :=
  let response := error_response error in
  let config := error_config error in
  let data := default VUndefined (response_data <$> response) in
  let silent := config ≫= config_silent in
  if truthy (prop data "message") && typeof_string (prop data "message") then
    handleErrorObject (AxiosFailure error)
      {| message := Some (prop data "message"); before := None; after := None;
         silent := silent; notify := None |}
  else
    handled ← handleError (SeekKeys (seekers error)) (AxiosFailure error);
    if negb handled then
      if truthy (prop data "message") && typeof_string (prop data "message")
         || truthy (prop data "description") && typeof_string (prop data "description")
         || truthy (VString (error_message error))
      then
        handleErrorObject (AxiosFailure error)
          {| message :=
               Some (nullish (prop data "message")
                       (nullish (prop data "description")
                          (VString (error_message error))));
             before := None; after := None; silent := silent; notify := None |}
      else ret VUndefined
    else ret VUndefined.

(** [handleAxiosError]: the raw check (lines 220-222), then the resolution. *)
Definition handleAxiosError (error : AxiosError) (direct : bool) : M value :=
  let config := error_config error in
  if negb direct && truthy (of_boolean (config ≫= config_raw)) then
    throw (ThrowFailure (AxiosFailure error))
  else handleAxiosError_resolve error.

(** [responseErrorHandler(error, direct = false)]: the branches of the
    [match] are those of [isAxiosError(error)], [error instanceof Error] and
    the final [throw error]. *)
Definition responseErrorHandler (error : Failure) (direct : bool) : M value :=
  if is_null error then
    throw (ThrowError "Unrecoverable error: error is null")
  else
    match error with
    | AxiosFailure e => handleAxiosError e direct
    | ErrorFailure name _ =>
        handleError (SeekKey name) error ;;
        throw (ThrowFailure error)
    | OtherFailure _ => throw (ThrowFailure error)
    end.

(** [createDealWith(globalHandlers, notifier)(solutions, ignoreGlobal)]: the
    closure it returns runs on a fresh local registry, from the trace so far. *)
Definition createDealWith (globalHandlers : ErrorHandlerRegistry)
  (notifier : option Notifier) (solutions : list (string * ErrorHandler))
  (ignoreGlobal : bool) (error : Failure) (tr : list Event)
  : Outcome value * State :=
  let parent := if ignoreGlobal then None else Some globalHandlers in
  let local := new_ErrorHandlerRegistry parent (Some solutions) notifier in
  responseErrorHandler error true {| this := local; trace := tr |}.

(** * Closed forms and predicates used by the statements *)

(** What [handleAxiosError] reads of an Axios failure: [response?.data],
    [config?.silent], [config?.raw]. *)
Definition error_data (error : AxiosError) : value :=
  default VUndefined (response_data <$> error_response error).

Definition error_silent (error : AxiosError) : option bool :=
  error_config error ≫= config_silent.

Definition error_raw (error : AxiosError) : option bool :=
  error_config error ≫= config_raw.

(** The notifier calls of a trace, in order. *)
Definition notifications (tr : list Event) : list (Notifier * object) :=
  omap (fun e => match e with
                 | NotifierCalled n options => Some (n, options)
                 | _ => None
                 end) tr.

(** What calling a hook on [options] gives: what it throws, or [options] as
    the hook left it ([options] itself when there is no hook). *)
Definition run_hook (h : option Hook) (error : Failure)
  (options : ErrorHandlerObject) : Thrown + ErrorHandlerObject :=
  match h with
  | Some (hook f) =>
      match f error (view options) with
      | inl t => inl t
      | inr w => inr (apply_writes w options)
      end
  | None => inr options
  end.

(** The trace of [call_hook]. *)
Definition hook_events (called : Failure -> ErrorHandlerObjectOf unit -> Event)
  (h : option Hook) (error : Failure) (options : ErrorHandlerObject)
  : list Event :=
  match h with
  | Some _ => [called error (view options)]
  | None => []
  end.

(** The notifier call of lines 184-190 for the descriptor as it is then:
    its trace, and what the notifier throws if it is called and throws. *)
Definition notifier_events (n : Notifier) (options : ErrorHandlerObject)
  : list Event :=
  if truthy (of_boolean (silent options)) then []
  else [NotifierCalled n (NotifierOptions options)].

Definition notifier_raises (n : Notifier) (options : ErrorHandlerObject)
  : option Thrown :=
  if truthy (of_boolean (silent options)) then None
  else notifier_throws n (NotifierOptions options).

(** [handleErrorObject] on a registry with notifier [n]: what it throws, and
    the callbacks it invokes. *)
Definition execute (n : Notifier) (error : Failure)
  (options : ErrorHandlerObject) : Thrown * list Event :=
  let before_events := hook_events BeforeCalled (before options) error options in
  match run_hook (before options) error options with
  | inl t => (t, before_events)
  | inr options1 =>
      match notifier_raises n options1 with
      | Some t => (t, before_events ++ notifier_events n options1)
      | None =>
          let events :=
            before_events ++ notifier_events n options1 ++
            hook_events AfterCalled (after options1) error options1 in
          match run_hook (after options1) error options1 with
          | inl t => (t, events)
          | inr options2 =>
              (ThrowApiError (ApiError_message (message options2)), events)
          end
      end
  end.

Definition descriptor_raises (n : Notifier) (error : Failure)
  (options : ErrorHandlerObject) : Thrown :=
  fst (execute n error options).

Definition descriptor_trace (n : Notifier) (error : Failure)
  (options : ErrorHandlerObject) : list Event :=
  snd (execute n error options).

(** The state with more callbacks invoked. *)
Definition add_events (s : State) (events : list Event) : State :=
  {| this := this s; trace := trace s ++ events |}.

(** The state after the callbacks of [options] ran. *)
Definition after_descriptor (error : Failure) (options : ErrorHandlerObject)
  (s : State) : State :=
  {| this := this s;
     trace := trace s ++ descriptor_trace (notifier (this s)) error options |}.

(** Executing a descriptor from a state. *)
Definition run_descriptor {A} (error : Failure) (options : ErrorHandlerObject)
  (s : State) : Outcome A * State :=
  (Threw (descriptor_raises (notifier (this s)) error options),
   after_descriptor error options s).

(** [t] is thrown by a callback in the execution of [options]: by the
    [before] hook, by the notifier, or by the [after] hook. *)
Definition callback_threw (n : Notifier) (error : Failure)
  (options : ErrorHandlerObject) (t : Thrown) : Prop :=
  run_hook (before options) error options = inl t
  ∨ ∃ options1, run_hook (before options) error options = inr options1
      ∧ (notifier_raises n options1 = Some t
         ∨ (notifier_raises n options1 = None
            ∧ run_hook (after options1) error options1 = inl t)).

(** The descriptor that [handleError] executes for a handler, if any:
    [{ message: handler }] for a string, the result of a resolver function
    or the registered object when [isErrorHandlerObject] accepts it. *)
Definition descriptor_of_string (handler : string) : ErrorHandlerObject :=
  {| message := Some (VString handler); before := None; after := None;
     silent := None; notify := None |}.

Definition resolve (handler : ErrorHandler) (error : Failure)
  : option ErrorHandlerObject :=
  match handler with
  | HandlerString handler => Some (descriptor_of_string handler)
  | HandlerFunction handler =>
      match handler error with
      | inr (ResultObject result) =>
          if isErrorHandlerObject (ResultObject result) then Some result else None
      | inl _ | inr ResultVoid | inr (ResultBoolean _) => None
      end
  | HandlerObject handler =>
      if isErrorHandlerObject (ResultObject handler) then Some handler else None
  end.

(** What the handler throws when it is a resolver function that throws. *)
Definition resolver_throws (handler : ErrorHandler) (error : Failure)
  : option Thrown :=
  match handler with
  | HandlerFunction handler =>
      match handler error with
      | inl t => Some t
      | inr _ => None
      end
  | HandlerString _ | HandlerObject _ => None
  end.

(** [handleError(seek, error)] from [s] executes [options]: the descriptor
    of a handler that [find] gives for the key, or for a defined entry of the
    array of keys. *)
Definition executes (seek : Seek) (error : Failure) (s : State)
  (options : ErrorHandlerObject) : Prop :=
  ∃ key handler,
    match seek with
    | SeekKey k => key = k
    | SeekKeys keys => ∃ v, v ∈ keys ∧ is_defined v = true ∧ key = String_ v
    end
    ∧ find (this s) key = Some handler
    ∧ resolve handler error = Some options.

(** A resolver function found for the key, or for a defined entry of the
    array of keys, throws [t]. *)
Definition resolver_threw (seek : Seek) (error : Failure) (s : State)
  (t : Thrown) : Prop :=
  ∃ key handler,
    match seek with
    | SeekKey k => key = k
    | SeekKeys keys => ∃ v, v ∈ keys ∧ is_defined v = true ∧ key = String_ v
    end
    ∧ find (this s) key = Some handler
    ∧ resolver_throws handler error = Some t.

(** A key that the search over an array passes over: undefined, or
    dispatching on it returns [false]. *)
Definition declines (error : Failure) (s : State) (key : value) : Prop :=
  is_defined key = false
  ∨ fst (handleError (SeekKey (String_ key)) error s) = Returned false.

(** [v && typeof v === 'string'] *)
Definition nonempty_string (v : value) : bool := truthy v && typeof_string v.

(** The descriptors that [handleAxiosError] builds from the body message
    (line 225) and from the fallback message (lines 243-246), and the test
    of lines 238-242. *)
Definition body_descriptor (error : AxiosError) : ErrorHandlerObject :=
  {| message := Some (prop (error_data error) "message");
     before := None; after := None;
     silent := error_silent error; notify := None |}.

Definition has_fallback_message (error : AxiosError) : bool :=
  nonempty_string (prop (error_data error) "message")
  || nonempty_string (prop (error_data error) "description")
  || truthy (VString (error_message error)).

Definition fallback_descriptor (error : AxiosError) : ErrorHandlerObject :=
  {| message :=
       Some (nullish (prop (error_data error) "message")
               (nullish (prop (error_data error) "description")
                  (VString (error_message error))));
     before := None; after := None;
     silent := error_silent error; notify := None |}.



(** [key] has an entry somewhere in the chain of [r]. *)
Fixpoint registered (r : ErrorHandlerRegistry) (key : string) : bool :=
  bool_decide (is_Some (handlers r !! key))
  || match parent r with
     | Some p => registered p key
     | None => false
     end.

(** The notifier was called once more, with an object whose property
    [field] is ["negative"] and whose [message] is the descriptor's. *)
Definition notified_with (field : string) (error : Failure)
  (options : ErrorHandlerObject) (s : State) : Prop :=
  ∃ sent,
    notifications (trace (snd (handleErrorObject (A := unit) error options s)))
    = (notifications (trace s) ++ [(notifier (this s), sent)])%list
    ∧ obj_get field sent = VString "negative"
    ∧ obj_get "message" sent = default VUndefined (message options).

(** The outcomes of [handleError] when nothing is raised but the [ApiError]
    of an executed descriptor and what its [before] or [after] hook throws. *)
Definition false_or_raised_by_descriptor (seek : Seek) (error : Failure)
  (s : State) : Prop :=
  fst (handleError seek error s) = Returned false
  ∨ ∃ options t,
      executes seek error s options
      ∧ fst (handleError seek error s) = Threw t
      ∧ ((∃ m, t = ThrowApiError m)
         ∨ run_hook (before options) error options = inl t
         ∨ ∃ options1, run_hook (before options) error options = inr options1
             ∧ run_hook (after options1) error options1 = inl t).

Arguments isErrorHandlerObject : simpl never.
Arguments handleErrorObject : simpl never.
Arguments descriptor_raises : simpl never.
Arguments descriptor_trace : simpl never.
Arguments after_descriptor : simpl never.
Arguments apply_writes : simpl never.

(** * Sample inputs, after tests/index.spec.ts *)

(** [new Error('test')], a fresh trace, and a registry built with a spy as
    its notifier. *)
Definition sample_error : Failure := ErrorFailure "Error" "test".

Definition fresh (r : ErrorHandlerRegistry) : State :=
  {| this := r; trace := [] |}.

Definition spy : Notifier := customNotifier 0 (fun _ => None).

Definition spied_registry : ErrorHandlerRegistry :=
  new_ErrorHandlerRegistry None None (Some spy).

(** A notifier that throws [new Error('notifier down')], and a registry
    built with it. *)
Definition broken_notifier : Notifier :=
  customNotifier 2 (fun _ => Some (ThrowError "notifier down")).

Definition broken_registry : ErrorHandlerRegistry :=
  new_ErrorHandlerRegistry None None (Some broken_notifier).

(** A global store, a child that shadows its key, and a child whose entry
    for that key is the empty string. *)
Definition global_store : ErrorHandlerRegistry :=
  new_ErrorHandlerRegistry None (Some [("k", HandlerString "parent")]) None.

Definition shadowing_store : ErrorHandlerRegistry :=
  new_ErrorHandlerRegistry (Some global_store)
    (Some [("k", HandlerString "child")]) None.

Definition empty_entry_store : ErrorHandlerRegistry :=
  new_ErrorHandlerRegistry (Some global_store) (Some [("k", HandlerString "")]) None.

(** A hook that returns without writing, a hook that throws
    [new Error('hook')], and a hook that sets [options.silent = true]. *)
Definition quiet_hook : Hook := hook (fun _ _ => inr no_writes).

Definition failing_hook : Hook := hook (fun _ _ => inl (ThrowError "hook")).

Definition silencing_hook : Hook :=
  hook (fun _ _ =>
    inr {| write_message := None; write_before := None; write_after := None;
           write_silent := Some (Some true); write_notify := None |}).

(** The descriptor of the test 'ErrorHandlerObject avec before/after/silent/notify'. *)
Definition descriptor_E2 : ErrorHandlerObject :=
  {| message := Some (VString "erreur 2");
     before := Some quiet_hook;
     after := Some quiet_hook;
     silent := Some false;
     notify := Some [("extra", VNumber (nonzero "42"))] |}.

(** A descriptor whose [notify] payload has a [message] of its own. *)
Definition descriptor_with_message_payload : ErrorHandlerObject :=
  {| message := Some (VString "boom"); before := None; after := None;
     silent := None; notify := Some [("message", VString "other")] |}.

(** The failures of the tests 'AxiosError avec data.message ...'
    ([silent] false) and 'AxiosError silent supprime la notification'
    ([silent] true). *)
Definition axios_msg_API (silent : bool) : AxiosError :=
  {| error_message := "axios"; error_name := "AxiosError"; error_code := None;
     error_config := Some {| config_raw := None; config_silent := Some silent |};
     error_response :=
       Some {| response_data := VObject [("message", VString "msg API")];
               response_status := Some (nonzero "400") |} |}.

(** The failure of the test 'raw=true + direct=true ignore raw et gère
    data.message'. *)
Definition axios_raw_bar : AxiosError :=
  {| error_message := "foo"; error_name := "AxiosError";
     error_code := Some "CODE";
     error_config := Some {| config_raw := Some true; config_silent := Some false |};
     error_response :=
       Some {| response_data := VObject [("message", VString "bar")];
               response_status := None |} |}.

(** An Axios failure with code [E1], no response and [config.silent] true. *)
Definition axios_E1_silent : AxiosError :=
  {| error_message := "Request failed"; error_name := "AxiosError";
     error_code := Some "E1";
     error_config := Some {| config_raw := None; config_silent := Some true |};
     error_response := None |}.


(** A resolver function that throws [new Error('resolver down')]. *)
Definition failing_resolver : ErrorHandlerFunction :=
  fun _ => inl (ThrowError "resolver down").

(** * The default notifier, the chain of stores *)

(** Where [defaultNotifier] writes: [window.alert] when there is one,
    [console.error] otherwise. *)
Inductive Display : Type :=
  | Alert (text : string)
  | ConsoleError (text : string).

(** [defaultNotifier({ message, type })] (lines 80-86): the text is the
    template literal [`[${type}] ${message}`]; [has_alert] tells whether
    [window.alert] is a function. *)
Definition defaultNotifier_run (has_alert : bool) (options : object) : Display :=
  let text :=
    ("[" ++ String_ (obj_get "type" options) ++ "] "
         ++ String_ (obj_get "message" options))%string in
  if has_alert then Alert text else ConsoleError text.

(** What the default notifier displayed along a trace. *)
Definition displayed (has_alert : bool) (tr : list Event) : list Display :=
  omap (fun e => match e with
                 | NotifierCalled defaultNotifier options =>
                     Some (defaultNotifier_run has_alert options)
                 | _ => None
                 end) tr.

(** The calls that a dispatch adds to the trace [tr]: none, or one call of
    the notifier [n]. *)
Definition adds_at_most_one_call (n : Notifier) (tr tr' : list Event) : Prop :=
  ∃ delta, tr' = (tr ++ delta)%list
    ∧ (notifications delta = [] ∨ ∃ options, notifications delta = [(n, options)]).


(** The result of executing [{ message, silent }] from [s]: unless [silent],
    the notifier is called once; the call throws what the notifier throws if
    it throws, and the [ApiError] of [String(message)] otherwise. *)
Definition raised_with {A} (message : value) (silent : option bool) (s : State)
  : Outcome A * State :=
  (Threw (default (ThrowApiError (String_ message))
            (if truthy (of_boolean silent) then None
             else notifier_throws (notifier (this s))
                    [("type", VString "negative"); ("message", message)])),
   {| this := this s;
      trace := trace s ++
        (if truthy (of_boolean silent) then []
         else [NotifierCalled (notifier (this s))
                 [("type", VString "negative"); ("message", message)]]) |}).

(** The stores that [find] goes through, nearest first. *)
Fixpoint chain (r : ErrorHandlerRegistry) : list (gmap string ErrorHandler) :=
  handlers r :: match parent r with
                | Some p => chain p
                | None => []
                end.

(** The first entry for [key] that is truthy, along a list of stores. *)
Fixpoint first_truthy (key : string) (stores : list (gmap string ErrorHandler))
  : option ErrorHandler :=
  match stores with
  | [] => None
  | hs :: stores' =>
      if handler_truthy (hs !! key) then hs !! key else first_truthy key stores'
  end.

(** The local registry of a closure of [createDealWith]. *)
Definition local_registry (globalHandlers : ErrorHandlerRegistry)
  (notifier : option Notifier) (solutions : list (string * ErrorHandler))
  (ignoreGlobal : bool) : ErrorHandlerRegistry :=
  new_ErrorHandlerRegistry (if ignoreGlobal then None else Some globalHandlers)
    (Some solutions) notifier.

(** ** More sample inputs *)

(** Descriptors whose [before], or whose [after], hook throws. *)
Definition descriptor_failing_before : ErrorHandlerObject :=
  {| message := Some (VString "m"); before := Some failing_hook;
     after := Some quiet_hook; silent := None; notify := None |}.

Definition descriptor_failing_after : ErrorHandlerObject :=
  {| message := Some (VString "m"); before := None;
     after := Some failing_hook; silent := None; notify := None |}.

(** Resolver functions of the tests: one returns nothing, one a descriptor. *)
Definition resolver_void : ErrorHandlerFunction := fun _ => inr ResultVoid.

Definition resolver_E5 : ErrorHandlerFunction := fun _ =>
  inr (ResultObject (descriptor_of_string "erreur 5")).

(** [{ silent: true }]: accepted by [isErrorHandlerObject], with no message. *)
Definition descriptor_only_silent : ErrorHandlerObject :=
  {| message := None; before := None; after := None;
     silent := Some true; notify := None |}.

(** The descriptor of the test 'ErrorHandlerObject silent supprime la
    notification'. *)
Definition descriptor_E3 : ErrorHandlerObject :=
  {| message := Some (VString "erreur 3"); before := None; after := None;
     silent := Some true; notify := None |}.


Definition axios_boom : AxiosError :=
  {| error_message := "boom message"; error_name := "AxiosError";
     error_code := Some "CODE3";
     error_config := Some {| config_raw := None; config_silent := Some false |};
     error_response :=
       Some {| response_data := VObject [];
               response_status := Some (nonzero "500") |} |}.


(** The failures and the global registry of the test of [createDealWith]. *)
Definition axios_TEST : AxiosError :=
  {| error_message := "Error Message"; error_name := "AxiosError";
     error_code := Some "TEST"; error_config := None; error_response := None |}.

Definition global_TEST : ErrorHandlerRegistry :=
  after_call (registerMany [("TEST", HandlerString "global")] ;;
              setNotifier (Some (customNotifier 1 (fun _ => None))))
    (new_ErrorHandlerRegistry None None None).

(** An Axios failure with status 404 and no code, and a registry with a
    handler for that status. *)
Definition axios_404 : AxiosError :=
  {| error_message := "Request failed with status code 404";
     error_name := "AxiosError"; error_code := None; error_config := None;
     error_response :=
       Some {| response_data := VObject [];
               response_status := Some (nonzero "404") |} |}.

Definition registry_404 : ErrorHandlerRegistry :=
  after_call (register "404" (HandlerString "not found")) spied_registry.

(** A store, its parent and its grandparent, with an entry for ["k"] on the
    grandparent only. *)
Definition grandchild_store : ErrorHandlerRegistry :=
  new_ErrorHandlerRegistry
    (Some (new_ErrorHandlerRegistry (Some global_store) None None)) None None.

(** * What a dispatch does, in closed form *)

Lemma State_eta (s : State) : {| this := this s; trace := trace s |} = s.
Proof. by destruct s. Qed.

Lemma add_events_app (s : State) (events events' : list Event) :
  add_events (add_events s events) events' = add_events s (events ++ events').
Proof. unfold add_events. simpl. by rewrite app_assoc. Qed.

Lemma add_events_nil (s : State) : add_events s [] = s.
Proof. unfold add_events. by rewrite app_nil_r, State_eta. Qed.

(** A hook call: the event, then the throw or the descriptor as written. *)
Lemma call_hook_run (called : Failure -> ErrorHandlerObjectOf unit -> Event)
  (h : option Hook) (error : Failure) (options : ErrorHandlerObject) (s : State) :
  call_hook called h error options s
  = (match run_hook h error options with
     | inl t => Threw t
     | inr options' => Returned options'
     end,
     add_events s (hook_events called h error options)).
Proof.
  unfold call_hook, run_hook, hook_events, bind, emit, throw, ret.
  destruct h as [[f]|]; [|by rewrite add_events_nil].
  by destruct (f error (view options)).
Qed.

(** The notifier call of lines 184-190. *)
Lemma notifier_step_run (options : ErrorHandlerObject) (s : State) :
  (if negb (truthy (of_boolean (silent options)))
   then call_notifier (NotifierOptions options) else ret tt) s
  = (match notifier_raises (notifier (this s)) options with
     | Some t => Threw t
     | None => Returned tt
     end,
     add_events s (notifier_events (notifier (this s)) options)).
Proof.
  unfold notifier_raises, notifier_events, call_notifier, bind, emit, gets,
    throw, ret.
  destruct (truthy (of_boolean (silent options))); simpl;
    [by rewrite add_events_nil|].
  by destruct (notifier_throws _ _).
Qed.

(** [handleErrorObject] always throws, after the callbacks of the descriptor. *)
Lemma handleErrorObject_run {A} (error : Failure) (options : ErrorHandlerObject)
  (s : State) :
  handleErrorObject (A := A) error options s = run_descriptor error options s.
Proof.
  unfold handleErrorObject, run_descriptor, after_descriptor, descriptor_raises,
    descriptor_trace, execute, bind.
  rewrite call_hook_run.
  destruct (run_hook (before options) error options) as [t|o1]; [done|].
  rewrite notifier_step_run. cbn [this add_events].
  destruct (notifier_raises (notifier (this s)) o1) as [t|];
    [by rewrite add_events_app|].
  rewrite call_hook_run, !add_events_app.
  by destruct (run_hook (after o1) error o1).
Qed.

(** Induction along the parent chain of a registry. *)
Lemma registry_chain_ind (P : ErrorHandlerRegistry -> Prop) :
  (∀ hs n, P (Registry hs None n)) ->
  (∀ hs p n, P p -> P (Registry hs (Some p) n)) ->
  ∀ r, P r.
Proof.
  intros Hroot Hchild. fix IH 1. intros [hs [p|] n].
  - apply Hchild, IH.
  - apply Hroot.
Qed.

(** [find] never gives back a falsy handler. *)
Lemma find_truthy (r : ErrorHandlerRegistry) (seek : string) :
  find r seek = None ∨ handler_truthy (find r seek) = true.
Proof.
  induction r as [hs n|hs p n IH] using registry_chain_ind; simpl;
    destruct (handler_truthy (hs !! seek)) eqn:E; auto.
Qed.

(** A handler that resolves to a descriptor did not throw. *)
Lemma resolve_no_throw (handler : ErrorHandler) (error : Failure)
  (options : ErrorHandlerObject) :
  resolve handler error = Some options -> resolver_throws handler error = None.
Proof.
  destruct handler as [h|f|o]; simpl; [done| |done].
  by destruct (f error).
Qed.

(** [handleError] on one key: an absent handler, or one that declines,
    gives [false] and leaves the state as it was; a resolver function that
    throws leaves it too; a resolved descriptor is executed. *)
Lemma handleError_key_run (seek : string) (error : Failure) (s : State) :
  handleError_key seek error s =
  match find (this s) seek with
  | Some handler =>
      match resolver_throws handler error with
      | Some t => (Threw t, s)
      | None =>
          match resolve handler error with
          | Some options => run_descriptor error options s
          | None => (Returned false, s)
          end
      end
  | None => (Returned false, s)
  end.
Proof.
  unfold handleError_key, bind, gets. simpl.
  destruct (find_truthy (this s) seek) as [E|E].
  - by rewrite E.
  - rewrite E. simpl.
    destruct (find (this s) seek) as [[h|f|o]|]; simpl; try done.
    + by rewrite handleErrorObject_run.
    + destruct (f error) as [t|[o| |]]; try done.
      destruct (isErrorHandlerObject (ResultObject o)); simpl; [|done].
      by rewrite handleErrorObject_run.
    + destruct (isErrorHandlerObject (ResultObject o)); simpl; [|done].
      by rewrite handleErrorObject_run.
Qed.

(** The same for a handler that resolves to a descriptor. *)
Lemma handleError_key_resolved (seek : string) (error : Failure) (s : State)
  (handler : ErrorHandler) (options : ErrorHandlerObject) :
  find (this s) seek = Some handler ->
  resolve handler error = Some options ->
  handleError_key seek error s = run_descriptor error options s.
Proof.
  intros Hf Hr. by rewrite handleError_key_run, Hf, (resolve_no_throw _ _ _ Hr), Hr.
Qed.

(** One step of [some] over the array of keys. *)
Lemma handleError_keys_cons (key : value) (keys : list value) (error : Failure)
  (s : State) :
  handleError (SeekKeys (key :: keys)) error s =
  if is_defined key then
    match handleError (SeekKey (String_ key)) error s with
    | (Returned false, s') => handleError (SeekKeys keys) error s'
    | (Returned true, s') => (Returned true, s')
    | (Threw t, s') => (Threw t, s')
    end
  else handleError (SeekKeys keys) error s.
Proof.
  simpl. unfold bind. destruct (is_defined key); simpl; [|done].
  by destruct (handleError_key (String_ key) error s) as [[[|]|t] s'].
Qed.

Lemma executes_here (key : value) (keys : list value) (error : Failure)
  (s : State) (handler : ErrorHandler) (options : ErrorHandlerObject) :
  is_defined key = true ->
  find (this s) (String_ key) = Some handler ->
  resolve handler error = Some options ->
  executes (SeekKeys (key :: keys)) error s options.
Proof.
  intros Hd Hf Hr. exists (String_ key), handler. split; [|done].
  exists key. split; [apply list_elem_of_here | done].
Qed.

Lemma executes_later (key : value) (keys : list value) (error : Failure)
  (s : State) (options : ErrorHandlerObject) :
  executes (SeekKeys keys) error s options ->
  executes (SeekKeys (key :: keys)) error s options.
Proof.
  intros (k & h & (v & Hv & Hd & Hk) & Hf & Hr). exists k, h. split; [|done].
  exists v. split; [by apply list_elem_of_further | done].
Qed.

Lemma resolver_threw_later (key : value) (keys : list value) (error : Failure)
  (s : State) (t : Thrown) :
  resolver_threw (SeekKeys keys) error s t ->
  resolver_threw (SeekKeys (key :: keys)) error s t.
Proof.
  intros (k & h & (v & Hv & Hd & Hk) & Hf & Hr). exists k, h. split; [|done].
  exists v. split; [by apply list_elem_of_further | done].
Qed.

(** Every call of [handleError] either returns [false] in the state it
    started from, or executes the descriptor of a handler found for one of
    its keys, which throws, or throws what a resolver function found for one
    of its keys threw, in the state it started from. *)
Lemma handleError_cases (seek : Seek) (error : Failure) (s : State) :
  handleError seek error s = (Returned false, s)
  ∨ (∃ options, executes seek error s options
       ∧ handleError seek error s = run_descriptor error options s)
  ∨ (∃ t, resolver_threw seek error s t
       ∧ handleError seek error s = (Threw t, s)).
Proof.
  destruct seek as [k|keys].
  - simpl. rewrite handleError_key_run.
    destruct (find (this s) k) as [h|] eqn:Ef; [|by left].
    destruct (resolver_throws h error) as [t|] eqn:Et.
    { right; right. exists t. split; [|done]. by exists k, h. }
    destruct (resolve h error) as [o|] eqn:Er; [|by left].
    right; left. exists o. split; [|done]. by exists k, h.
  - induction keys as [|key keys IH]; [by left|].
    assert (Hlater : handleError (SeekKeys keys) error s = (Returned false, s)
              ∨ (∃ options, executes (SeekKeys (key :: keys)) error s options
                   ∧ handleError (SeekKeys keys) error s
                     = run_descriptor error options s)
              ∨ (∃ t, resolver_threw (SeekKeys (key :: keys)) error s t
                   ∧ handleError (SeekKeys keys) error s = (Threw t, s))).
    { destruct IH as [IH|[(o & Hex & IH)|(t & Hth & IH)]]; [by left|right..].
      - left. exists o. split; [by apply executes_later | done].
      - right. exists t. split; [by apply resolver_threw_later | done]. }
    rewrite handleError_keys_cons.
    destruct (is_defined key) eqn:Ed; [|done].
    simpl. rewrite handleError_key_run.
    destruct (find (this s) (String_ key)) as [h|] eqn:Ef; [|done].
    destruct (resolver_throws h error) as [t|] eqn:Et.
    { right; right. exists t. split; [|done]. exists (String_ key), h.
      split; [|done]. exists key. split; [apply list_elem_of_here | done]. }
    destruct (resolve h error) as [o|] eqn:Er; [|done].
    right; left. exists o. split; [by eapply executes_here | done].
Qed.

(** Split on a call of [handleError] and rewrite with its value: [false]
    in place, the execution of a descriptor [o], or what a resolver function
    threw. *)
Ltac handleError_split seek error s o Hex :=
  let E := fresh "E" in
  let t := fresh "t" in
  let Hth := fresh "Hth" in
  destruct (handleError_cases seek error s)
    as [E|[(o & Hex & E)|(t & Hth & E)]]; rewrite E; clear E.

(** A key with a handler that resolves to a descriptor is not passed over:
    the call executes a descriptor, unless a resolver function found for a
    key throws first. *)
Lemma handleError_executes (seek : Seek) (error : Failure) (s : State)
  (options : ErrorHandlerObject) :
  executes seek error s options ->
  (∃ options', executes seek error s options'
     ∧ handleError seek error s = run_descriptor error options' s)
  ∨ (∃ t, resolver_threw seek error s t
       ∧ handleError seek error s = (Threw t, s)).
Proof.
  intros Hex.
  destruct (handleError_cases seek error s) as [E|[(o & Hex' & E)|(t & Hth & E)]];
    [exfalso | left; by exists o | right; by exists t].
  destruct seek as [k|keys].
  - destruct Hex as (? & h & -> & Hf & Hr).
    simpl in E. by rewrite (handleError_key_resolved _ _ _ _ _ Hf Hr) in E.
  - destruct Hex as (? & h & (v & Hv & Hd & ->) & Hf & Hr).
    induction keys as [|key keys IH]; [by apply elem_of_nil in Hv|].
    rewrite handleError_keys_cons in E.
    assert (Hrest : handleError (SeekKeys keys) error s = (Returned false, s)
                    -> v ≠ key -> False).
    { intros E' Hne. apply IH; [|done].
      apply elem_of_cons in Hv as [->|Hv]; done. }
    destruct (is_defined key) eqn:Ed.
    + simpl in E. rewrite handleError_key_run in E.
      destruct (find (this s) (String_ key)) as [h'|] eqn:Ef'.
      * destruct (resolver_throws h' error) as [t|] eqn:Et; [done|].
        destruct (resolve h' error) as [o'|] eqn:Er'; [done|].
        apply Hrest; [done|]. intros ->.
        rewrite Ef' in Hf. injection Hf as ->. congruence.
      * apply Hrest; [done|]. intros ->. congruence.
    + apply Hrest; [done|]. intros ->. congruence.
Qed.

(** [handleAxiosError] past the raw check, in closed form. *)
Lemma handleAxiosError_resolve_run (error : AxiosError) (s : State) :
  handleAxiosError_resolve error s =
  if nonempty_string (prop (error_data error) "message") then
    run_descriptor (AxiosFailure error) (body_descriptor error) s
  else
    match handleError (SeekKeys (seekers error)) (AxiosFailure error) s with
    | (Returned false, s') =>
        if has_fallback_message error then
          run_descriptor (AxiosFailure error) (fallback_descriptor error) s'
        else (Returned VUndefined, s')
    | (Returned true, s') => (Returned VUndefined, s')
    | (Threw t, s') => (Threw t, s')
    end.
Proof.
  unfold handleAxiosError_resolve, has_fallback_message, nonempty_string,
    body_descriptor, fallback_descriptor, error_data, error_silent, run_descriptor.
  destruct (truthy _ && typeof_string _) eqn:Em.
  - by rewrite handleErrorObject_run.
  - unfold bind.
    destruct (handleError _ _ s) as [[[|]|t] s']; simpl; try done.
    destruct (truthy (prop _ "description") && _ || _); [|done].
    by rewrite handleErrorObject_run.
Qed.

(** * Properties of plain objects *)

Lemma obj_get_set_eq (key : string) (v : value) (o : object) :
  obj_get key (obj_set key v o) = v.
Proof.
  induction o as [|[k w] o IH]; simpl.
  - by rewrite String.eqb_refl.
  - destruct (String.eqb k key) eqn:E; simpl; by rewrite E.
Qed.

Lemma obj_get_set_ne (key key' : string) (v : value) (o : object) :
  key ≠ key' -> obj_get key (obj_set key' v o) = obj_get key o.
Proof.
  intros Hne. induction o as [|[k w] o IH]; simpl.
  - destruct (String.eqb key' key) eqn:E; [|done].
    apply String.eqb_eq in E. congruence.
  - destruct (String.eqb k key') eqn:E; simpl; [|by rewrite IH].
    apply String.eqb_eq in E. subst k.
    destruct (String.eqb key' key) eqn:E'; [|done].
    apply String.eqb_eq in E'. congruence.
Qed.

(** A key the spread object lacks keeps the value it has in the base. *)
Lemma obj_get_spread_absent (key : string) (base ext : object) :
  obj_has key ext = false ->
  obj_get key (obj_spread base ext) = obj_get key base.
Proof.
  unfold obj_spread. revert base.
  induction ext as [|[k v] ext IH]; intros base Hno; simpl in *; [done|].
  apply orb_false_iff in Hno as [Hk Hno].
  rewrite IH by done. apply obj_get_set_ne.
  intros ->. by rewrite String.eqb_refl in Hk.
Qed.

Lemma obj_has_fst (key : string) (o : object) :
  obj_has key o = true -> key ∈ o.*1.
Proof.
  induction o as [|[k w] o IH]; simpl; [done|].
  intros [E|Hin]%orb_true_iff.
  - apply String.eqb_eq in E. subst. apply list_elem_of_here.
  - apply list_elem_of_further. auto.
Qed.

(** A key of the spread object takes its value there (the keys of an
    object are distinct). *)
Lemma obj_get_spread_present (key : string) (v : value) (base ext : object) :
  NoDup ext.*1 -> (key, v) ∈ ext ->
  obj_get key (obj_spread base ext) = v.
Proof.
  unfold obj_spread. revert base.
  induction ext as [|[k w] ext IH]; intros base Hnd Hin; simpl in *.
  - by apply elem_of_nil in Hin.
  - apply NoDup_cons in Hnd as [Hk Hnd].
    apply elem_of_cons in Hin as [E|Hin].
    + inversion E; subst k w.
      change (fold_left _ ext ?b) with (obj_spread b ext).
      rewrite obj_get_spread_absent; [apply obj_get_set_eq|].
      destruct (obj_has key ext) eqn:Eh; [|done].
      by apply obj_has_fst in Eh.
    + by apply IH.
Qed.

(** * The store: [find] along the parent chain *)

Lemma find_local (r : ErrorHandlerRegistry) (key : string) (h : ErrorHandler) :
  handlers r !! key = Some h -> handler_truthy (Some h) = true ->
  find r key = Some h.
Proof.
  intros E Ht. destruct r as [hs p n]; simpl in E |- *. by rewrite E, Ht.
Qed.

Lemma find_delegates (r p : ErrorHandlerRegistry) (key : string) :
  parent r = Some p -> handler_truthy (handlers r !! key) = false ->
  find r key = find p key.
Proof.
  intros Ep Hf. destruct r as [hs p' n]; simpl in Ep, Hf |- *. by rewrite Hf, Ep.
Qed.

Lemma find_unregistered (r : ErrorHandlerRegistry) (key : string) :
  registered r key = false -> find r key = None.
Proof.
  induction r as [hs n|hs p n IH] using registry_chain_ind; simpl;
    intros [Hl Hp]%orb_false_iff;
    apply bool_decide_eq_false in Hl;
    destruct (hs !! key) as [h|] eqn:E; try (exfalso; apply Hl; by eexists);
    simpl; auto.
Qed.

(** C4 (amended): on a store with a parent, an entry of the child that is
    not the empty string wins; a key with no entry on the child, or with the
    empty string as its entry, is looked up on the parent, so an entry of the
    parent that is not the empty string is returned; a key with no entry in
    the whole chain is absent. *)
Theorem find_parent_delegation (child p : ErrorHandlerRegistry) (key : string) :
  parent child = Some p ->
  (∀ h, handlers child !! key = Some h -> handler_truthy (Some h) = true ->
        find child key = Some h)
  ∧ (handler_truthy (handlers child !! key) = false ->
     find child key = find p key)
  ∧ (∀ h, handlers child !! key = None -> handlers p !! key = Some h ->
        handler_truthy (Some h) = true -> find child key = Some h)
  ∧ (registered child key = false -> find child key = None).
Proof.
  intros Ep. repeat split.
  - intros h. apply find_local.
  - by apply find_delegates.
  - intros h Ec Eph Ht. rewrite (find_delegates child p) by (done || by rewrite Ec).
    by apply find_local.
  - apply find_unregistered.
Qed.

(** On [shadowing_store] the child's entry for ["k"] wins, and a key with
    no entry in the chain is absent. *)
Lemma find_parent_delegation_witness :
  parent shadowing_store = Some global_store
  ∧ find shadowing_store "k" = Some (HandlerString "child")
  ∧ find shadowing_store "absent" = None.
Proof.
  split; [reflexivity|].
  destruct (find_parent_delegation shadowing_store global_store "k" eq_refl)
    as (Hchild & _).
  destruct (find_parent_delegation shadowing_store global_store "absent" eq_refl)
    as (_ & _ & _ & Habsent).
  split; [apply Hchild; reflexivity | apply Habsent; reflexivity].
Defined.

(** C4, as stated, fails where the child's entry is the empty string: the
    key has an entry on both stores and [find] returns the parent's. *)
Lemma find_empty_string_entry_does_not_shadow :
  parent empty_entry_store = Some global_store
  ∧ handlers empty_entry_store !! "k" = Some (HandlerString "")
  ∧ handlers global_store !! "k" = Some (HandlerString "parent")
  ∧ find empty_entry_store "k" = Some (HandlerString "parent")
  ∧ find empty_entry_store "k" ≠ handlers empty_entry_store !! "k".
Proof. repeat split; try reflexivity. vm_compute. discriminate. Qed.

(** * Executing a descriptor *)

Lemma truthy_nonempty (s : string) : s ≠ "" -> truthy (VString s) = true.
Proof.
  intros Hne. simpl. destruct (String.eqb s "") eqn:E; [|done].
  by apply String.eqb_eq in E.
Qed.

Lemma notifications_app (tr1 tr2 : list Event) :
  notifications (tr1 ++ tr2) = notifications tr1 ++ notifications tr2.
Proof. apply omap_app. Qed.

Lemma notifications_hook_events called hook error options :
  (∀ e o, notifications [called e o] = []) ->
  notifications (hook_events called hook error options) = [].
Proof. intros H. destruct hook; simpl; [apply H|done]. Qed.

Lemma notifications_notifier_events (n : Notifier) (options : ErrorHandlerObject) :
  notifications (notifier_events n options)
  = if truthy (of_boolean (silent options)) then []
    else [(n, NotifierOptions options)].
Proof. unfold notifier_events. by destruct (truthy (of_boolean (silent options))). Qed.

(** The notifier calls of one descriptor: none when [before] throws, else
    one unless the descriptor is silent once [before] has returned. *)
Lemma notifications_descriptor_trace (n : Notifier) (error : Failure)
  (options : ErrorHandlerObject) :
  notifications (descriptor_trace n error options) =
  match run_hook (before options) error options with
  | inl _ => []
  | inr options1 =>
      if truthy (of_boolean (silent options1)) then []
      else [(n, NotifierOptions options1)]
  end.
Proof.
  unfold descriptor_trace, execute.
  destruct (run_hook (before options) error options) as [t|options1]; simpl.
  - by apply (notifications_hook_events BeforeCalled).
  - destruct (notifier_raises n options1) as [t|]; simpl.
    + by rewrite notifications_app, (notifications_hook_events BeforeCalled),
        notifications_notifier_events.
    + assert (E : ∀ x : Thrown * list Event,
                notifications (snd x)
                = notifications
                    (hook_events BeforeCalled (before options) error options ++
                     notifier_events n options1 ++
                     hook_events AfterCalled (after options1) error options1) ->
                notifications (snd x)
                = if truthy (of_boolean (silent options1)) then []
                  else [(n, NotifierOptions options1)]).
      { intros x ->.
        rewrite !notifications_app, (notifications_hook_events BeforeCalled),
          (notifications_hook_events AfterCalled), notifications_notifier_events
          by done.
        simpl. by rewrite app_nil_r. }
      apply E. by destruct (run_hook (after options1) error options1).
Qed.

(** C1 (amended): [handleErrorObject] hands the descriptor itself to the
    [before] hook and reads [silent], [message] and [notify] afterwards.
    When the hook, if any, returns and leaves the descriptor ([options1])
    with a [silent] that is not true, the notifier is called exactly once,
    with [{ type: 'negative', message: options1.message }] overlaid with the
    [notify] payload of [options1]; without a hook [options1] is the
    descriptor as given.  The property is named [type]; a [type] or
    [message] entry of the payload replaces the default one, and without such
    an entry [type] is ["negative"] and [message] is the descriptor's. *)
Theorem handleErrorObject_notifies_once (error : Failure)
  (options options1 : ErrorHandlerObject) (s : State) :
  run_hook (before options) error options = inr options1 ->
  silent options1 ≠ Some true ->
  notifications (trace (snd (handleErrorObject (A := unit) error options s)))
  = notifications (trace s) ++
    [(notifier (this s),
      obj_spread [("type", VString "negative");
                  ("message", default VUndefined (message options1))]
                 (default [] (notify options1)))]
  ∧ (before options = None -> options1 = options)
  ∧ (obj_has "type" (default [] (notify options1)) = false ->
     obj_get "type" (NotifierOptions options1) = VString "negative")
  ∧ (obj_has "message" (default [] (notify options1)) = false ->
     obj_get "message" (NotifierOptions options1)
     = default VUndefined (message options1))
  ∧ (∀ key v, NoDup (default [] (notify options1)).*1 ->
       (key, v) ∈ default [] (notify options1) ->
       obj_get key (NotifierOptions options1) = v).
Proof.
  intros Hbefore Hsilent. split; [|split; [|split; [|split]]].
  - rewrite handleErrorObject_run. unfold run_descriptor, after_descriptor. simpl.
    rewrite notifications_app, notifications_descriptor_trace, Hbefore.
    destruct (silent options1) as [[|]|]; done.
  - intros Hno. rewrite Hno in Hbefore. simpl in Hbefore. congruence.
  - intros Hno. unfold NotifierOptions. by rewrite obj_get_spread_absent.
  - intros Hno. unfold NotifierOptions. by rewrite obj_get_spread_absent.
  - intros key v Hnd Hin. by apply obj_get_spread_present.
Qed.

(** The test 'ErrorHandlerObject avec before/after/silent/notify': one call,
    with the payload's [extra] beside [type] and [message]. *)
Lemma handleErrorObject_notifies_once_witness :
  notifications
    (trace (snd (handleErrorObject (A := unit) sample_error descriptor_E2
                   (fresh spied_registry))))
  = [(spy, [("type", VString "negative"); ("message", VString "erreur 2");
            ("extra", VNumber (nonzero "42"))])].
Proof.
  refine (proj1 (handleErrorObject_notifies_once sample_error descriptor_E2
                   descriptor_E2 (fresh spied_registry) _ _)).
  - reflexivity.
  - discriminate.
Defined.

(** C1, as stated, fails on a descriptor whose payload has a [message]: the
    notifier gets the payload's message, not the descriptor's, whether the
    other property is read as [severity] or as [type]. *)
Lemma notify_payload_replaces_message :
  silent descriptor_with_message_payload ≠ Some true
  ∧ notifications
      (trace (snd (handleErrorObject (A := unit) sample_error
                     descriptor_with_message_payload (fresh spied_registry))))
    = [(spy, [("type", VString "negative"); ("message", VString "other")])]
  ∧ ¬ notified_with "severity" sample_error descriptor_with_message_payload
        (fresh spied_registry)
  ∧ ¬ notified_with "type" sample_error descriptor_with_message_payload
        (fresh spied_registry).
Proof.
  split; [discriminate|]. split; [reflexivity|].
  split; intros (sent & Hsent & _ & Hmsg); vm_compute in Hsent;
    inversion Hsent; subst sent; vm_compute in Hmsg; discriminate.
Qed.

(** A descriptor without hooks: the notifier call unless it is silent, then
    the [ApiError], unless the notifier threw. *)
Lemma run_hookless_descriptor {A} (error : Failure) (options : ErrorHandlerObject)
  (s : State) :
  before options = None -> after options = None ->
  run_descriptor (A := A) error options s
  = (Threw (default (ThrowApiError (ApiError_message (message options)))
              (notifier_raises (notifier (this s)) options)),
     add_events s (notifier_events (notifier (this s)) options)).
Proof.
  intros Hb Ha.
  unfold run_descriptor, after_descriptor, descriptor_raises, descriptor_trace,
    execute, add_events.
  rewrite Hb. simpl.
  destruct (notifier_raises (notifier (this s)) options); [done|].
  rewrite Ha. simpl. by rewrite app_nil_r.
Qed.

(** Executing a descriptor that has only a message and a silent flag. *)
Lemma run_plain_descriptor {A} (error : Failure) (m : value)
  (silent : option bool) (s : State) :
  m ≠ VUndefined ->
  run_descriptor (A := A) error
    {| message := Some m; before := None; after := None;
       silent := silent; notify := None |} s
  = raised_with m silent s.
Proof.
  intros Hm. rewrite run_hookless_descriptor by done.
  unfold raised_with, notifier_raises, notifier_events, add_events,
    NotifierOptions. simpl.
  destruct (truthy (of_boolean silent)); by destruct m.
Qed.

(** * String handlers *)

(** C3 (amended): a string handler that is not the empty string, registered
    under [key] on the store, makes [handleError(key, error)] call the
    notifier once with [{ type: 'negative', message: handler }] and then
    raise an [ApiError] with that string as its message, unless the notifier
    throws: then the call throws what the notifier threw. *)
Theorem handleError_string_handler (r : ErrorHandlerRegistry)
  (key handler : string) (error : Failure) (tr : list Event) :
  handler ≠ "" ->
  handlers r !! key = Some (HandlerString handler) ->
  handleError (SeekKey key) error {| this := r; trace := tr |}
  = (Threw (default (ThrowApiError handler)
              (notifier_throws (notifier r)
                 [("type", VString "negative"); ("message", VString handler)])),
     {| this := r;
        trace := tr ++ [NotifierCalled (notifier r)
                          [("type", VString "negative");
                           ("message", VString handler)]] |}).
Proof.
  intros Hne Hreg. simpl.
  rewrite (handleError_key_resolved key error _ (HandlerString handler)
             (descriptor_of_string handler)).
  - unfold descriptor_of_string. by rewrite run_plain_descriptor.
  - simpl. apply find_local; [done | by apply truthy_nonempty].
  - done.
Qed.

(** The test 'string handler déclenche notification et jette ApiError'. *)
Lemma handleError_string_handler_witness :
  handleError (SeekKey "E1") sample_error
    (fresh (after_call (register "E1" (HandlerString "erreur 1")) spied_registry))
  = (Threw (ThrowApiError "erreur 1"),
     {| this := after_call (register "E1" (HandlerString "erreur 1")) spied_registry;
        trace := [NotifierCalled spy [("type", VString "negative");
                                      ("message", VString "erreur 1")]] |}).
Proof.
  apply (handleError_string_handler
           (after_call (register "E1" (HandlerString "erreur 1")) spied_registry)
           "E1" "erreur 1" sample_error []).
  - discriminate.
  - reflexivity.
Defined.

(** C3, as stated, fails for the empty string: [find] takes the entry for
    absent, [handleError] returns [false], nothing is raised and the
    notifier is not called. *)
Lemma handleError_empty_string_handler :
  handlers (after_call (register "E1" (HandlerString "")) spied_registry) !! "E1"
  = Some (HandlerString "")
  ∧ handleError (SeekKey "E1") sample_error
      (fresh (after_call (register "E1" (HandlerString "")) spied_registry))
    = (Returned false, fresh (after_call (register "E1" (HandlerString "")) spied_registry))
  ∧ fst (handleError (SeekKey "E1") sample_error
           (fresh (after_call (register "E1" (HandlerString "")) spied_registry)))
    ≠ Threw (ThrowApiError "").
Proof. repeat split; try reflexivity. vm_compute. discriminate. Qed.

(** A string handler on a registry whose notifier throws: the notifier's
    exception is what [handleError] throws. *)
Lemma handleError_string_handler_broken_notifier :
  fst (handleError (SeekKey "E1") sample_error
         (fresh (after_call (register "E1" (HandlerString "erreur 1"))
                   broken_registry)))
  = Threw (ThrowError "notifier down").
Proof. reflexivity. Qed.

(** * Axios failures *)

Lemma handleAxiosError_not_raw (error : AxiosError) (direct : bool) (s : State) :
  direct = true ∨ truthy (of_boolean (error_raw error)) = false ->
  handleAxiosError error direct s = handleAxiosError_resolve error s.
Proof.
  unfold handleAxiosError, error_raw.
  intros [-> | ->]; [done | by rewrite andb_false_r].
Qed.

(** The body message of an Axios failure, executed as a descriptor. *)
Lemma body_message_run (error : AxiosError) (m : string) (s : State) :
  prop (error_data error) "message" = VString m -> m ≠ "" ->
  handleAxiosError_resolve error s
  = raised_with (VString m) (error_silent error) s.
Proof.
  intros Hm Hne. rewrite handleAxiosError_resolve_run.
  unfold nonempty_string. rewrite Hm, (truthy_nonempty m Hne). simpl.
  unfold body_descriptor. rewrite Hm. by apply run_plain_descriptor.
Qed.

(** C7 (amended): an Axios failure that is not raw-overridden and whose
    [data.message] is a non-empty string is resolved without a look at the
    registered handlers.  If [config.silent] is true the notifier is not
    called and [responseErrorHandler] raises an [ApiError] with exactly that
    message; otherwise the notifier is called once with that message, and the
    call raises that [ApiError] unless the notifier throws, in which case it
    throws what the notifier threw. *)
Theorem responseErrorHandler_body_message (error : AxiosError) (direct : bool)
  (m : string) (s : State) :
  direct = true ∨ truthy (of_boolean (error_raw error)) = false ->
  prop (error_data error) "message" = VString m ->
  m ≠ "" ->
  responseErrorHandler (AxiosFailure error) direct s
  = (Threw (default (ThrowApiError m)
              (if truthy (of_boolean (error_silent error)) then None
               else notifier_throws (notifier (this s))
                      [("type", VString "negative"); ("message", VString m)])),
     {| this := this s;
        trace := trace s ++
          (if truthy (of_boolean (error_silent error)) then []
           else [NotifierCalled (notifier (this s))
                   [("type", VString "negative"); ("message", VString m)]]) |}).
Proof.
  intros Hraw Hm Hne. unfold responseErrorHandler. simpl.
  rewrite handleAxiosError_not_raw by done. by apply body_message_run.
Qed.

(** The body message wins over a handler registered for the failure's name. *)
Lemma responseErrorHandler_body_message_witness :
  responseErrorHandler (AxiosFailure (axios_msg_API false)) false
    (fresh (after_call (register "AxiosError" (HandlerString "registered")) spied_registry))
  = (Threw (ThrowApiError "msg API"),
     {| this := after_call (register "AxiosError" (HandlerString "registered")) spied_registry;
        trace := [NotifierCalled spy [("type", VString "negative");
                                      ("message", VString "msg API")]] |}).
Proof.
  apply (responseErrorHandler_body_message (axios_msg_API false) false "msg API"
           (fresh (after_call (register "AxiosError" (HandlerString "registered"))
                     spied_registry))).
  - right. reflexivity.
  - reflexivity.
  - discriminate.
Defined.

(** C7, as stated, fails under [config.silent]: the [ApiError] is raised but
    the notifier is not called. *)
Lemma body_message_silent_does_not_notify :
  prop (error_data (axios_msg_API true)) "message" = VString "msg API"
  ∧ error_raw (axios_msg_API true) = None
  ∧ responseErrorHandler (AxiosFailure (axios_msg_API true)) false
      (fresh spied_registry)
    = (Threw (ThrowApiError "msg API"), fresh spied_registry)
  ∧ notifications
      (trace (snd (responseErrorHandler (AxiosFailure (axios_msg_API true))
                     false (fresh spied_registry))))
    = [].
Proof. repeat split. Qed.

(** C6: an Axios failure with [config.raw] true is thrown as it is, with no
    callback invoked, when [direct] is false; when [direct] is true the flag
    is not looked at and the call is the resolution by body and keys (a
    non-empty body message is executed as a descriptor, otherwise the keys
    are searched and the first handler found for them is run), and that is
    how every closure of [createDealWith] runs. *)
Theorem raw_override_unless_direct (error : AxiosError) (s : State) :
  error_raw error = Some true ->
  responseErrorHandler (AxiosFailure error) false s
  = (Threw (ThrowFailure (AxiosFailure error)), s)
  ∧ responseErrorHandler (AxiosFailure error) true s
    = handleAxiosError_resolve error s
  ∧ (∀ m, prop (error_data error) "message" = VString m -> m ≠ "" ->
       responseErrorHandler (AxiosFailure error) true s
       = raised_with (VString m) (error_silent error) s)
  ∧ (nonempty_string (prop (error_data error) "message") = false ->
     ∀ options,
       executes (SeekKeys (seekers error)) (AxiosFailure error) s options ->
       (∃ options',
          executes (SeekKeys (seekers error)) (AxiosFailure error) s options'
          ∧ responseErrorHandler (AxiosFailure error) true s
            = run_descriptor (AxiosFailure error) options' s)
       ∨ (∃ t,
            resolver_threw (SeekKeys (seekers error)) (AxiosFailure error) s t
            ∧ responseErrorHandler (AxiosFailure error) true s = (Threw t, s)))
  ∧ (∀ globalHandlers notifier solutions ignoreGlobal tr,
       createDealWith globalHandlers notifier solutions ignoreGlobal
         (AxiosFailure error) tr
       = handleAxiosError_resolve error
           {| this := new_ErrorHandlerRegistry
                        (if ignoreGlobal then None else Some globalHandlers)
                        (Some solutions) notifier;
              trace := tr |}).
Proof.
  intros Hraw.
  assert (Hdirect : responseErrorHandler (AxiosFailure error) true s
                    = handleAxiosError_resolve error s).
  { unfold responseErrorHandler. simpl. apply handleAxiosError_not_raw. by left. }
  split; [|split; [|split; [|split]]].
  - unfold responseErrorHandler, handleAxiosError. simpl.
    fold (error_raw error). by rewrite Hraw.
  - exact Hdirect.
  - intros m Hm Hne. by rewrite Hdirect, (body_message_run error m s Hm Hne).
  - intros Hbody options Hex. rewrite Hdirect, handleAxiosError_resolve_run, Hbody.
    destruct (handleError_executes _ _ _ _ Hex) as [(o & Hex' & E)|(t & Hth & E)].
    + left. exists o. by rewrite E.
    + right. exists t. by rewrite E.
  - intros. unfold createDealWith, responseErrorHandler. simpl.
    apply handleAxiosError_not_raw. by left.
Qed.

(** With [direct] false the failure itself is thrown; with [direct] true
    its body message is raised as an [ApiError]. *)
Lemma raw_override_unless_direct_witness :
  responseErrorHandler (AxiosFailure axios_raw_bar) false (fresh spied_registry)
  = (Threw (ThrowFailure (AxiosFailure axios_raw_bar)), fresh spied_registry)
  ∧ responseErrorHandler (AxiosFailure axios_raw_bar) true (fresh spied_registry)
    = (Threw (ThrowApiError "bar"),
       {| this := spied_registry;
          trace := [NotifierCalled spy [("type", VString "negative");
                                        ("message", VString "bar")]] |}).
Proof.
  destruct (raw_override_unless_direct axios_raw_bar (fresh spied_registry)
              eq_refl) as (Hraw & Hdirect & _ & _ & _).
  split; [exact Hraw|]. rewrite Hdirect. reflexivity.
Defined.

(** * The [silent] flags *)

(** [silent: true] on the descriptor once [before] has returned: no notifier
    call, and the [ApiError] is raised when [after] returns. *)
Lemma silent_descriptor_run (error : Failure)
  (options options1 : ErrorHandlerObject) (s : State) :
  run_hook (before options) error options = inr options1 ->
  silent options1 = Some true ->
  notifications (trace (snd (handleErrorObject (A := unit) error options s)))
  = notifications (trace s)
  ∧ (∀ options2, run_hook (after options1) error options1 = inr options2 ->
     fst (handleErrorObject (A := unit) error options s)
     = Threw (ThrowApiError (ApiError_message (message options2)))).
Proof.
  intros Hb Hs. rewrite handleErrorObject_run.
  unfold run_descriptor, after_descriptor. simpl. split.
  - rewrite notifications_app, notifications_descriptor_trace, Hb, Hs. simpl.
    by rewrite app_nil_r.
  - intros options2 Ha. unfold descriptor_raises, execute, notifier_raises.
    by rewrite Hb, Hs, Ha.
Qed.

(** C5: where the handler comes from the registry, [config.silent] is not
    consulted: with the string handler ["msg"] registered under [E1], the
    failure above is notified although its [config.silent] is true. *)
Theorem config_silent_ignored_for_registered_handler :
  error_silent axios_E1_silent = Some true
  ∧ responseErrorHandler (AxiosFailure axios_E1_silent) false
      (fresh (after_call (register "E1" (HandlerString "msg")) spied_registry))
    = (Threw (ThrowApiError "msg"),
       {| this := after_call (register "E1" (HandlerString "msg")) spied_registry;
          trace := [NotifierCalled spy [("type", VString "negative");
                                        ("message", VString "msg")]] |}).
Proof. split; reflexivity. Qed.

(** * [handleError]: outcomes and the search over several keys *)

(** What [handleErrorObject] throws: its own [ApiError], for the message
    that the hooks left, or what a callback threw. *)
Lemma descriptor_raises_cases (n : Notifier) (error : Failure)
  (options : ErrorHandlerObject) :
  (∃ options1 options2,
     run_hook (before options) error options = inr options1
     ∧ notifier_raises n options1 = None
     ∧ run_hook (after options1) error options1 = inr options2
     ∧ descriptor_raises n error options
       = ThrowApiError (ApiError_message (message options2)))
  ∨ callback_threw n error options (descriptor_raises n error options).
Proof.
  unfold descriptor_raises, callback_threw, execute.
  destruct (run_hook (before options) error options) as [t|options1];
    [by right; left|].
  destruct (notifier_raises n options1) as [t|] eqn:En.
  { right; right. exists options1. split; [done|]. by left. }
  destruct (run_hook (after options1) error options1) as [t|options2] eqn:Ea.
  - right; right. exists options1. split; [done|]. by right.
  - left. by exists options1, options2.
Qed.

(** C9 (amended): [handleError] never returns [true].  It returns [false]
    with no callback invoked; or a resolver function found for one of its
    keys throws, and the call throws the same; or it executes the descriptor
    of a handler found for one of its keys, and executing a descriptor
    always throws: the [ApiError] of the message that the hooks left, or what
    the [before] hook, the notifier or the [after] hook threw. *)
Theorem handleError_never_returns_true (seek : Seek) (error : Failure) (s : State) :
  fst (handleError seek error s) ≠ Returned true
  ∧ (handleError seek error s = (Returned false, s)
     ∨ (∃ t, resolver_threw seek error s t
          ∧ handleError seek error s = (Threw t, s))
     ∨ ∃ options, executes seek error s options
         ∧ fst (handleError seek error s)
           = Threw (descriptor_raises (notifier (this s)) error options))
  ∧ (∀ options, ∃ t,
       fst (handleErrorObject (A := unit) error options s) = Threw t
       ∧ ((∃ options1 options2,
             run_hook (before options) error options = inr options1
             ∧ notifier_raises (notifier (this s)) options1 = None
             ∧ run_hook (after options1) error options1 = inr options2
             ∧ t = ThrowApiError (ApiError_message (message options2)))
          ∨ callback_threw (notifier (this s)) error options t)).
Proof.
  split; [|split].
  - by handleError_split seek error s o Hex.
  - destruct (handleError_cases seek error s)
      as [E|[(o & Hex & E)|(t & Hth & E)]].
    + by left.
    + right; right. exists o. by rewrite E.
    + right; left. by exists t.
  - intros options. exists (descriptor_raises (notifier (this s)) error options).
    rewrite handleErrorObject_run. split; [done|].
    apply descriptor_raises_cases.
Qed.

(** C9, as stated, fails when the handler found for the key is a resolver
    function that throws: [handleError] throws the resolver's exception,
    which is neither [false], nor an [ApiError], nor what a hook threw; no
    descriptor is executed and no callback of a descriptor is invoked. *)
Lemma handleError_resolver_exception_escapes :
  handleError (SeekKey "E1") sample_error
    (fresh (after_call (register "E1" (HandlerFunction failing_resolver))
              spied_registry))
  = (Threw (ThrowError "resolver down"),
     fresh (after_call (register "E1" (HandlerFunction failing_resolver))
              spied_registry))
  ∧ ¬ false_or_raised_by_descriptor (SeekKey "E1") sample_error
        (fresh (after_call (register "E1" (HandlerFunction failing_resolver))
                  spied_registry)).
Proof.
  split; [reflexivity|].
  intros [E|(o & t & (key & h & -> & Hf & Hr) & _)].
  - vm_compute in E. discriminate E.
  - vm_compute in Hf. injection Hf as <-. vm_compute in Hr. discriminate Hr.
Qed.

Lemma handleError_false_state (seek : Seek) (error : Failure) (s : State) :
  fst (handleError seek error s) = Returned false ->
  handleError seek error s = (Returned false, s).
Proof.
  by handleError_split seek error s o Hex.
Qed.

Lemma handleError_keys_declined (key : value) (keys : list value)
  (error : Failure) (s : State) :
  declines error s key ->
  handleError (SeekKeys (key :: keys)) error s
  = handleError (SeekKeys keys) error s.
Proof.
  intros [Hd|Hf]; rewrite handleError_keys_cons.
  - by rewrite Hd.
  - destruct (is_defined key); [|done].
    by rewrite (handleError_false_state _ _ _ Hf).
Qed.

Lemma handleError_keys_skip (pre rest : list value) (error : Failure) (s : State) :
  Forall (declines error s) pre ->
  handleError (SeekKeys (pre ++ rest)) error s
  = handleError (SeekKeys rest) error s.
Proof.
  induction 1 as [|key pre Hkey _ IH]; [done|].
  rewrite <- app_comm_cons, handleError_keys_declined by done. apply IH.
Qed.

Lemma descriptor_notifies_at_most_once (n : Notifier) (error : Failure)
  (options : ErrorHandlerObject) :
  (length (notifications (descriptor_trace n error options)) <= 1)%nat.
Proof.
  rewrite notifications_descriptor_trace.
  destruct (run_hook _ _ _); [simpl; lia|].
  destruct (truthy _); simpl; lia.
Qed.

Lemma handleError_notifies_at_most_once (seek : Seek) (error : Failure)
  (s : State) :
  ∃ delta,
    trace (snd (handleError seek error s)) = trace s ++ delta
    ∧ (length (notifications delta) <= 1)%nat.
Proof.
  handleError_split seek error s o Hex.
  - exists []. simpl. split; [by rewrite app_nil_r | lia].
  - exists (descriptor_trace (notifier (this s)) error o). split; [done|].
    apply descriptor_notifies_at_most_once.
  - exists []. simpl. split; [by rewrite app_nil_r | lia].
Qed.

(** C8: over an array of keys, [handleError] passes over undefined entries
    and over keys whose dispatch returns [false], in order; the first other
    key decides the call, whatever follows it; the call returns [false]
    exactly when every key was passed over; and the notifier is called at
    most once. *)
Theorem handleError_keys_first_match (keys : list value) (error : Failure)
  (s : State) :
  (∀ pre key post,
     keys = (pre ++ key :: post)%list ->
     Forall (declines error s) pre ->
     ¬ declines error s key ->
     handleError (SeekKeys keys) error s
     = handleError (SeekKey (String_ key)) error s)
  ∧ (fst (handleError (SeekKeys keys) error s) = Returned false
     ↔ Forall (declines error s) keys)
  ∧ (∃ delta,
       trace (snd (handleError (SeekKeys keys) error s)) = (trace s ++ delta)%list
       ∧ (length (notifications delta) <= 1)%nat).
Proof.
  split; [|split].
  - intros pre key post -> Hpre Hkey.
    rewrite handleError_keys_skip, handleError_keys_cons by done.
    destruct (is_defined key) eqn:Hd; [|destruct Hkey; by left].
    destruct (handleError (SeekKey (String_ key)) error s) as [[[|]|t] s'] eqn:E;
      try done.
    destruct Hkey. right. by rewrite E.
  - split.
    + induction keys as [|key keys IH]; [constructor|].
      rewrite handleError_keys_cons.
      destruct (is_defined key) eqn:Hd.
      * destruct (handleError (SeekKey (String_ key)) error s)
          as [[[|]|t] s'] eqn:E; try done.
        assert (Hf : fst (handleError (SeekKey (String_ key)) error s)
                     = Returned false) by by rewrite E.
        rewrite (handleError_false_state _ _ _ Hf) in E.
        inversion E; subst s'. intros H.
        constructor; [by right | by apply IH].
      * intros H. constructor; [by left | by apply IH].
    + intros Hall.
      rewrite <- (app_nil_r keys), handleError_keys_skip by done. done.
  - apply handleError_notifies_at_most_once.
Qed.

(** The call of the test 'tableau de clés ...': only ["good"] is registered. *)
Lemma handleError_keys_first_match_witness :
  handleError (SeekKeys [VString "bad"; VUndefined; VString "good"; VString "late"])
    sample_error
    (fresh (after_call
              (registerMany [("good", HandlerString "ok"); ("late", HandlerString "no")])
              spied_registry))
  = (Threw (ThrowApiError "ok"),
     {| this := after_call
                  (registerMany [("good", HandlerString "ok");
                                 ("late", HandlerString "no")])
                  spied_registry;
        trace := [NotifierCalled spy [("type", VString "negative");
                                      ("message", VString "ok")]] |}).
Proof.
  rewrite (proj1 (handleError_keys_first_match
                    [VString "bad"; VUndefined; VString "good"; VString "late"]
                    sample_error _)
             [VString "bad"; VUndefined] (VString "good") [VString "late"]).
  - reflexivity.
  - reflexivity.
  - constructor; [right; reflexivity|].
    constructor; [left; reflexivity | constructor].
  - intros [Hd|Hf]; [discriminate Hd | vm_compute in Hf; discriminate Hf].
Defined.

(** * The entry point: outcomes of [responseErrorHandler] *)


(** What [handleAxiosError] gives past the raw check: the execution of the
    descriptor of the body message or of the fallback message, the
    execution of the descriptor of a registered handler, what a resolver
    function threw, or undefined when no handler was executed and there is
    no message to fall back to. *)
Lemma handleAxiosError_resolve_cases (error : AxiosError) (s : State) :
  (∃ options, (options = body_descriptor error
               ∨ options = fallback_descriptor error)
      ∧ handleAxiosError_resolve error s
        = run_descriptor (AxiosFailure error) options s
      ∧ has_fallback_message error = true)
  ∨ (∃ options, executes (SeekKeys (seekers error)) (AxiosFailure error) s options
      ∧ handleAxiosError_resolve error s
        = run_descriptor (AxiosFailure error) options s)
  ∨ (∃ t, resolver_threw (SeekKeys (seekers error)) (AxiosFailure error) s t
      ∧ handleAxiosError_resolve error s = (Threw t, s))
  ∨ (handleAxiosError_resolve error s = (Returned VUndefined, s)
     ∧ has_fallback_message error = false
     ∧ handleError (SeekKeys (seekers error)) (AxiosFailure error) s
       = (Returned false, s)).
Proof.
  rewrite handleAxiosError_resolve_run. unfold has_fallback_message.
  destruct (nonempty_string (prop (error_data error) "message")) eqn:Em.
  - left. exists (body_descriptor error). split; [by left | done].
  - destruct (handleError_cases (SeekKeys (seekers error)) (AxiosFailure error) s)
      as [E|[(o & Hex & E)|(t & Hth & E)]]; rewrite E.
    + simpl. destruct (_ || _) eqn:Ef.
      * left. exists (fallback_descriptor error). split; [by right | done].
      * right; right; right. done.
    + right; left. by exists o.
    + right; right; left. by exists t.
Qed.




(** On a registry whose notifier throws, what [responseErrorHandler] throws
    for a handled failure is the notifier's exception: neither the failure
    nor an [ApiError]. *)
Lemma responseErrorHandler_broken_notifier :
  fst (responseErrorHandler sample_error false
         (fresh (after_call (register "Error" (HandlerString "handled"))
                   broken_registry)))
  = Threw (ThrowError "notifier down").
Proof. reflexivity. Qed.

(** * Frame: dispatch does not write the registry *)

Lemma handleError_this (seek : Seek) (error : Failure) (s : State) :
  this (snd (handleError seek error s)) = this s.
Proof.
  by handleError_split seek error s o Hex.
Qed.

Lemma handleAxiosError_this (error : AxiosError) (direct : bool) (s : State) :
  this (snd (handleAxiosError error direct s)) = this s.
Proof.
  unfold handleAxiosError. destruct (negb direct && _); [done|].
  destruct (handleAxiosError_resolve_cases error s)
    as [(o & _ & E & _)|[(o & _ & E)|[(t & _ & E)|(E & _)]]]; by rewrite E.
Qed.

Lemma responseErrorHandler_this (error : Failure) (direct : bool) (s : State) :
  this (snd (responseErrorHandler error direct s)) = this s.
Proof.
  unfold responseErrorHandler. destruct (is_null error); [done|].
  destruct error as [e|name msg|v]; [apply handleAxiosError_this| |done].
  unfold bind.
  by handleError_split (SeekKey name) (ErrorFailure name msg) s o Hex.
Qed.

Lemma registerMany_run (input : list (string * ErrorHandler)) (s : State) :
  registerMany input s
  = (Returned tt,
     {| this :=
          {| handlers :=
               fold_left (fun m kv => <[kv.1 := kv.2]> m) input (handlers (this s));
             parent := parent (this s);
             notifier := notifier (this s) |};
        trace := trace s |}).
Proof.
  revert s. induction input as [|[k h] input IH]; intros s; simpl.
  - unfold ret. by destruct s as [[hs p n] tr].
  - unfold bind, register, modify. by rewrite IH.
Qed.

(** C10: looking a key up, [handleError], [handleErrorObject],
    [handleAxiosError] and [responseErrorHandler] end with the registry they
    started with: same handlers, same parent, same notifier.  The methods
    that write it are [register], [unregister] and [registerMany] (the
    handlers) and [setNotifier] (the notifier); none writes the parent, which
    is set when the registry is built. *)
Theorem dispatch_leaves_registry (seek : Seek) (key : string) (error : Failure)
  (e : AxiosError) (direct : bool) (options : ErrorHandlerObject)
  (handler : ErrorHandler) (input : list (string * ErrorHandler))
  (fn : Notifier) (s : State) :
  (this (snd (gets (fun r => find r key) s)) = this s
   ∧ this (snd (handleError seek error s)) = this s
   ∧ this (snd (handleErrorObject (A := unit) error options s)) = this s
   ∧ this (snd (handleAxiosError e direct s)) = this s
   ∧ this (snd (responseErrorHandler error direct s)) = this s)
  ∧ this (snd (register key handler s))
    = {| handlers := <[key := handler]> (handlers (this s));
         parent := parent (this s); notifier := notifier (this s) |}
  ∧ this (snd (unregister key s))
    = {| handlers := delete key (handlers (this s));
         parent := parent (this s); notifier := notifier (this s) |}
  ∧ this (snd (registerMany input s))
    = {| handlers :=
           fold_left (fun m kv => <[kv.1 := kv.2]> m) input (handlers (this s));
         parent := parent (this s); notifier := notifier (this s) |}
  ∧ this (snd (setNotifier (Some fn) s))
    = {| handlers := handlers (this s); parent := parent (this s);
         notifier := fn |}.
Proof.
  split; [|split; [|split; [|split]]].
  - split; [done|]. split; [apply handleError_this|].
    split; [by rewrite handleErrorObject_run|].
    split; [apply handleAxiosError_this | apply responseErrorHandler_this].
  - done.
  - done.
  - by rewrite registerMany_run.
  - done.
Qed.

(** * Further properties: descriptors and the kinds of handlers *)

(** X2: for a resolver function found under the key, [handleError] returns
    [false] and invokes nothing more when the function's result is not
    accepted by [isErrorHandlerObject] (nothing, a boolean, an object with no
    recognised property); it executes the returned descriptor when it is; and
    when the function throws, [handleError] throws the same, with no hook and
    no notifier called. *)
Theorem handleError_function_handler (key : string) (f : ErrorHandlerFunction)
  (error : Failure) (s : State) :
  find (this s) key = Some (HandlerFunction f) ->
  (∀ r, f error = inr r -> isErrorHandlerObject r = false ->
   handleError (SeekKey key) error s = (Returned false, s))
  ∧ (∀ o, f error = inr (ResultObject o) ->
     isErrorHandlerObject (ResultObject o) = true ->
     handleError (SeekKey key) error s = run_descriptor error o s)
  ∧ (∀ t, f error = inl t ->
     handleError (SeekKey key) error s = (Threw t, s)).
Proof.
  intros Hf. simpl. rewrite handleError_key_run, Hf. simpl.
  split; [|split].
  - intros r Hr Hno. rewrite Hr. destruct r as [o| |]; [|done..]. by rewrite Hno.
  - intros o Ho Hyes. by rewrite Ho, Hyes.
  - intros t Ht. by rewrite Ht.
Qed.

(** The tests 'function handler retournant void ...' and 'function handler
    retournant ErrorHandlerObject ...'. *)
Lemma handleError_function_handler_witness :
  handleError (SeekKey "E4") sample_error
    (fresh (after_call (register "E4" (HandlerFunction resolver_void))
              spied_registry))
  = (Returned false,
     fresh (after_call (register "E4" (HandlerFunction resolver_void))
              spied_registry))
  ∧ fst (handleError (SeekKey "E5") sample_error
           (fresh (after_call (register "E5" (HandlerFunction resolver_E5))
                     spied_registry)))
    = Threw (ThrowApiError "erreur 5").
Proof.
  split.
  - apply (proj1 (handleError_function_handler "E4" resolver_void sample_error
                    (fresh (after_call (register "E4" (HandlerFunction resolver_void))
                              spied_registry)) eq_refl) ResultVoid);
      reflexivity.
  - rewrite (proj1 (proj2 (handleError_function_handler "E5" resolver_E5
                             sample_error
                             (fresh (after_call
                                       (register "E5" (HandlerFunction resolver_E5))
                                       spied_registry)) eq_refl))
               (descriptor_of_string "erreur 5") eq_refl eq_refl).
    reflexivity.
Defined.

(** X3: when its callbacks return and the descriptor has no [message] once
    [after] has returned, [handleErrorObject] raises an [ApiError] with the
    empty message; if after [before] the descriptor is not silent and has
    neither a payload nor a message, the notifier is called with [message]
    undefined. *)
Theorem descriptor_without_message (error : Failure)
  (options options1 options2 : ErrorHandlerObject) (s : State) :
  run_hook (before options) error options = inr options1 ->
  notifier_raises (notifier (this s)) options1 = None ->
  run_hook (after options1) error options1 = inr options2 ->
  message options2 = None ->
  fst (handleErrorObject (A := unit) error options s) = Threw (ThrowApiError "")
  ∧ (silent options1 ≠ Some true -> notify options1 = None ->
     message options1 = None ->
     notifications (trace (snd (handleErrorObject (A := unit) error options s)))
     = notifications (trace s) ++
       [(notifier (this s),
         [("type", VString "negative"); ("message", VUndefined)])]).
Proof.
  intros Hb Hn Ha Hm. rewrite handleErrorObject_run. split.
  - simpl. unfold descriptor_raises, execute. by rewrite Hb, Hn, Ha, Hm.
  - intros Hs Hp Hm1. unfold run_descriptor, after_descriptor. simpl.
    rewrite notifications_app, notifications_descriptor_trace, Hb.
    unfold NotifierOptions. rewrite Hm1, Hp.
    by destruct (silent options1) as [[|]|].
Qed.

Lemma descriptor_without_message_witness :
  fst (handleErrorObject (A := unit) sample_error descriptor_only_silent
         (fresh spied_registry))
  = Threw (ThrowApiError "").
Proof.
  apply (descriptor_without_message sample_error descriptor_only_silent
           descriptor_only_silent descriptor_only_silent
           (fresh spied_registry)); reflexivity.
Defined.

(** X4: with a [before] hook that returns, a descriptor that is then not
    silent ([options1]), a notifier that returns and an [after] hook that
    returns ([options2]), [handleErrorObject] calls [before], then the
    notifier, then [after], each once and in that order: [before] on the
    descriptor as given, the notifier and [after] on the descriptor as
    [before] left it; then it raises the [ApiError] of the message that
    [after] left. *)
Theorem hooks_run_around_notifier (error : Failure)
  (options options1 options2 : ErrorHandlerObject) (fb fa : Hook) (s : State) :
  before options = Some fb ->
  run_hook (Some fb) error options = inr options1 ->
  silent options1 ≠ Some true ->
  notifier_throws (notifier (this s)) (NotifierOptions options1) = None ->
  after options1 = Some fa ->
  run_hook (Some fa) error options1 = inr options2 ->
  handleErrorObject (A := unit) error options s
  = (Threw (ThrowApiError (ApiError_message (message options2))),
     {| this := this s;
        trace := trace s ++
          [BeforeCalled error (view options);
           NotifierCalled (notifier (this s)) (NotifierOptions options1);
           AfterCalled error (view options1)] |}).
Proof.
  intros Hb Hfb Hs Hn Ha Hfa. rewrite handleErrorObject_run.
  unfold run_descriptor, descriptor_raises, after_descriptor, descriptor_trace,
    execute, notifier_raises, notifier_events, hook_events.
  rewrite Hb, Hfb.
  assert (Hq : truthy (of_boolean (silent options1)) = false)
    by by destruct (silent options1) as [[|]|].
  by rewrite Hq, Hn, Ha, Hfa.
Qed.

Lemma hooks_run_around_notifier_witness :
  trace (snd (handleErrorObject (A := unit) sample_error descriptor_E2
                (fresh spied_registry)))
  = [BeforeCalled sample_error (view descriptor_E2);
     NotifierCalled spy (NotifierOptions descriptor_E2);
     AfterCalled sample_error (view descriptor_E2)].
Proof.
  rewrite (hooks_run_around_notifier sample_error descriptor_E2 descriptor_E2
             descriptor_E2 quiet_hook quiet_hook (fresh spied_registry));
    (reflexivity || discriminate).
Defined.

(** X5: when the [before] hook throws, its exception is what
    [handleErrorObject] throws: the notifier and the [after] hook are not
    called and no [ApiError] is built. *)
Theorem before_hook_throws (error : Failure) (options : ErrorHandlerObject)
  (fb : Failure -> ErrorHandlerObjectOf unit -> Thrown + WritesOf Hook)
  (t : Thrown) (s : State) :
  before options = Some (hook fb) -> fb error (view options) = inl t ->
  handleErrorObject (A := unit) error options s
  = (Threw t,
     {| this := this s;
        trace := trace s ++ [BeforeCalled error (view options)] |}).
Proof.
  intros Hb Hfb. rewrite handleErrorObject_run.
  unfold run_descriptor, descriptor_raises, after_descriptor, descriptor_trace,
    execute, run_hook, hook_events.
  by rewrite Hb, Hfb.
Qed.

Lemma before_hook_throws_witness :
  handleErrorObject (A := unit) sample_error descriptor_failing_before
    (fresh spied_registry)
  = (Threw (ThrowError "hook"),
     {| this := spied_registry;
        trace := [BeforeCalled sample_error (view descriptor_failing_before)] |}).
Proof.
  exact (before_hook_throws sample_error descriptor_failing_before
           (fun _ _ => inl (ThrowError "hook"))
           (ThrowError "hook") (fresh spied_registry) eq_refl eq_refl).
Defined.

(** X6: when [before] returns (or is absent), the notifier, if it is called,
    returns, and the [after] hook throws, the hook's exception replaces the
    [ApiError]; the notifier has already been called, unless the descriptor
    was silent when [before] returned. *)
Theorem after_hook_throws (error : Failure)
  (options options1 : ErrorHandlerObject)
  (fa : Failure -> ErrorHandlerObjectOf unit -> Thrown + WritesOf Hook)
  (t : Thrown) (s : State) :
  run_hook (before options) error options = inr options1 ->
  notifier_raises (notifier (this s)) options1 = None ->
  after options1 = Some (hook fa) -> fa error (view options1) = inl t ->
  handleErrorObject (A := unit) error options s
  = (Threw t,
     {| this := this s;
        trace := trace s ++
          hook_events BeforeCalled (before options) error options ++
          (if truthy (of_boolean (silent options1)) then []
           else [NotifierCalled (notifier (this s)) (NotifierOptions options1)]) ++
          [AfterCalled error (view options1)] |}).
Proof.
  intros Hb Hn Ha Hfa. rewrite handleErrorObject_run.
  unfold run_descriptor, descriptor_raises, after_descriptor, descriptor_trace,
    execute.
  rewrite Hb, Hn. unfold run_hook, hook_events, notifier_events.
  by rewrite Ha, Hfa.
Qed.

Lemma after_hook_throws_witness :
  handleErrorObject (A := unit) sample_error descriptor_failing_after
    (fresh spied_registry)
  = (Threw (ThrowError "hook"),
     {| this := spied_registry;
        trace := [NotifierCalled spy [("type", VString "negative");
                                      ("message", VString "m")];
                  AfterCalled sample_error (view descriptor_failing_after)] |}).
Proof.
  exact (after_hook_throws sample_error descriptor_failing_after
           descriptor_failing_after (fun _ _ => inl (ThrowError "hook"))
           (ThrowError "hook") (fresh spied_registry)
           eq_refl eq_refl eq_refl eq_refl).
Defined.

(** X7: an object handler found under the key that is silent once its
    [before] hook, if any, has returned (so an object registered with
    [silent: true] and no [before] hook) makes [handleError] call no notifier
    and, when its [after] hook returns, raise the [ApiError] of the message
    that the hooks left. *)
Theorem handleError_silent_object (key : string)
  (options options1 : ErrorHandlerObject) (error : Failure) (s : State) :
  find (this s) key = Some (HandlerObject options) ->
  isErrorHandlerObject (ResultObject options) = true ->
  run_hook (before options) error options = inr options1 ->
  silent options1 = Some true ->
  notifications (trace (snd (handleError (SeekKey key) error s)))
  = notifications (trace s)
  ∧ (∀ options2, run_hook (after options1) error options1 = inr options2 ->
     fst (handleError (SeekKey key) error s)
     = Threw (ThrowApiError (ApiError_message (message options2))))
  ∧ (before options = None -> options1 = options).
Proof.
  intros Hf Hyes Hb Hs. simpl.
  rewrite (handleError_key_resolved key error s (HandlerObject options) options)
    by (done || by simpl; rewrite Hyes).
  unfold run_descriptor, after_descriptor. simpl. split; [|split].
  - rewrite notifications_app, notifications_descriptor_trace, Hb, Hs. simpl.
    by rewrite app_nil_r.
  - intros options2 Ha. unfold descriptor_raises, execute, notifier_raises.
    by rewrite Hb, Hs, Ha.
  - intros Hno. rewrite Hno in Hb. simpl in Hb. congruence.
Qed.

(** The test 'ErrorHandlerObject silent supprime la notification'. *)
Lemma handleError_silent_object_witness :
  notifications
    (trace (snd (handleError (SeekKey "E3") sample_error
                   (fresh (after_call (register "E3" (HandlerObject descriptor_E3))
                             spied_registry)))))
  = []
  ∧ fst (handleError (SeekKey "E3") sample_error
           (fresh (after_call (register "E3" (HandlerObject descriptor_E3))
                     spied_registry)))
    = Threw (ThrowApiError "erreur 3").
Proof.
  destruct (handleError_silent_object "E3" descriptor_E3 descriptor_E3
              sample_error
              (fresh (after_call (register "E3" (HandlerObject descriptor_E3))
                        spied_registry)) eq_refl eq_refl eq_refl eq_refl)
    as (Hquiet & Hraise & _).
  split; [exact Hquiet | exact (Hraise descriptor_E3 eq_refl)].
Defined.

(** A [before] hook that sets [options.silent = true] on a descriptor
    registered with [silent: false]: the notifier is not called. *)
Lemma silencing_hook_suppresses_notifier :
  handleErrorObject (A := unit) sample_error
    {| message := Some (VString "m"); before := Some silencing_hook;
       after := None; silent := Some false; notify := None |}
    (fresh spied_registry)
  = (Threw (ThrowApiError "m"),
     {| this := spied_registry;
        trace := [BeforeCalled sample_error
                    {| message := Some (VString "m"); before := Some tt;
                       after := None; silent := Some false; notify := None |}] |}).
Proof. reflexivity. Qed.

(** * Further properties: the store *)

(** [find] looks only at the entry for its key and at the parent. *)
Lemma find_ext (r r' : ErrorHandlerRegistry) (key : string) :
  handlers r !! key = handlers r' !! key -> parent r = parent r' ->
  find r key = find r' key.
Proof.
  destruct r as [hs p n], r' as [hs' p' n']. simpl. by intros -> ->.
Qed.

(** X8: after [register(key, handler)] with a handler that is not the empty
    string, [find(key)] returns that handler, whatever the parent holds; the
    answer of [find] for every other key is unchanged, and no callback is
    invoked. *)
Theorem register_then_find (key : string) (handler : ErrorHandler) (s : State) :
  handler_truthy (Some handler) = true ->
  find (this (snd (register key handler s))) key = Some handler
  ∧ (∀ key', key' ≠ key ->
       find (this (snd (register key handler s))) key' = find (this s) key')
  ∧ trace (snd (register key handler s)) = trace s.
Proof.
  intros Ht. split; [|split; [|done]].
  - apply find_local; [|done]. simpl. apply lookup_insert_eq.
  - intros key' Hne. apply find_ext; [|done]. simpl.
    by apply lookup_insert_ne.
Qed.

(** The test 'enregistre et trouve un handler par clé', on a store whose
    parent has an entry for the same key. *)
Lemma register_then_find_witness :
  find (this (snd (register "k" (HandlerFunction resolver_void)
                     (fresh shadowing_store)))) "k"
  = Some (HandlerFunction resolver_void).
Proof.
  apply (register_then_find "k" (HandlerFunction resolver_void)
           (fresh shadowing_store)). reflexivity.
Defined.

(** X9: after [unregister(key)], [find(key)] is the parent's answer (absent
    when there is no parent); every other key is unaffected; and
    unregistering a key that has no entry changes nothing. *)
Theorem unregister_then_find (key : string) (s : State) :
  find (this (snd (unregister key s))) key
  = match parent (this s) with
    | Some p => find p key
    | None => None
    end
  ∧ (∀ key', key' ≠ key ->
       find (this (snd (unregister key s))) key' = find (this s) key')
  ∧ (handlers (this s) !! key = None -> unregister key s = (Returned tt, s)).
Proof.
  split; [|split].
  - destruct s as [[hs p n] tr]. simpl. by rewrite lookup_delete_eq.
  - intros key' Hne. apply find_ext; [|done]. simpl.
    by apply lookup_delete_ne.
  - intros Hno. destruct s as [[hs p n] tr]. unfold unregister, modify. simpl in *.
    by rewrite delete_id.
Qed.

(** X10: registering twice under one key keeps the last handler only. *)
Theorem register_overwrites (key : string) (h1 h2 : ErrorHandler) (s : State) :
  (register key h1 ;; register key h2) s = register key h2 s.
Proof.
  unfold bind, register, modify. simpl. by rewrite insert_insert_eq.
Qed.

(** X11: on a store with no entry for the key, [register] followed by
    [unregister] gives the store back as it was. *)
Theorem register_unregister_roundtrip (key : string) (handler : ErrorHandler)
  (s : State) :
  handlers (this s) !! key = None ->
  (register key handler ;; unregister key) s = (Returned tt, s).
Proof.
  intros Hno. destruct s as [[hs p n] tr]. unfold bind, register, unregister, modify.
  simpl in *. by rewrite delete_insert_id.
Qed.

(** The test 'désenregistre un handler'. *)
Lemma register_unregister_roundtrip_witness :
  (register "x" (HandlerString "msg") ;; unregister "x") (fresh spied_registry)
  = (Returned tt, fresh spied_registry).
Proof.
  apply (register_unregister_roundtrip "x" (HandlerString "msg")
           (fresh spied_registry)). reflexivity.
Defined.

Lemma fold_insert_notin (input : list (string * ErrorHandler))
  (m : gmap string ErrorHandler) (key : string) :
  key ∉ input.*1 ->
  fold_left (fun m kv => <[kv.1 := kv.2]> m) input m !! key = m !! key.
Proof.
  revert m. induction input as [|[k h] input IH]; intros m Hno; simpl; [done|].
  simpl in Hno. apply not_elem_of_cons in Hno as [Hne Hno].
  rewrite IH by done. by apply lookup_insert_ne.
Qed.

(** X12: [registerMany] registers the entries in order.  A key that is not
    in the input keeps its entry; a key of the input gets the handler of its
    last occurrence; and registering a concatenation is registering one part
    after the other. *)
Theorem registerMany_last_wins (input : list (string * ErrorHandler)) (s : State) :
  (∀ key, key ∉ input.*1 ->
     handlers (this (snd (registerMany input s))) !! key
     = handlers (this s) !! key)
  ∧ (∀ l1 key h l2, input = (l1 ++ (key, h) :: l2)%list -> key ∉ l2.*1 ->
       handlers (this (snd (registerMany input s))) !! key = Some h)
  ∧ (∀ l1 l2, input = (l1 ++ l2)%list ->
       registerMany input s = (registerMany l1 ;; registerMany l2) s).
Proof.
  split; [|split].
  - intros key Hno. rewrite registerMany_run. simpl. by apply fold_insert_notin.
  - intros l1 key h l2 -> Hno. rewrite registerMany_run. simpl.
    rewrite fold_left_app. simpl. rewrite fold_insert_notin by done.
    apply lookup_insert_eq.
  - intros l1 l2 ->. unfold bind. rewrite !registerMany_run. simpl.
    by rewrite fold_left_app.
Qed.

(** X13: [find] returns the entry of the nearest store of the chain (the
    store itself, its parent, the parent's parent, ...) whose entry for the
    key is truthy; it is absent exactly when no store of the chain has one;
    and it never returns the empty string. *)
Theorem find_nearest_truthy (r : ErrorHandlerRegistry) (key : string) :
  find r key = first_truthy key (chain r)
  ∧ (find r key = None
     ↔ Forall (fun hs => handler_truthy (hs !! key) = false) (chain r))
  ∧ find r key ≠ Some (HandlerString "").
Proof.
  assert (Hchain : find r key = first_truthy key (chain r)).
  { induction r as [hs n|hs p n IH] using registry_chain_ind; simpl;
      destruct (handler_truthy (hs !! key)); auto. }
  split; [done|split].
  - rewrite Hchain. generalize (chain r). intros stores.
    induction stores as [|hs stores IH]; simpl.
    + split; [constructor|done].
    + destruct (handler_truthy (hs !! key)) eqn:E.
      * split; [intros Hn; by rewrite Hn in E | by inversion 1; congruence].
      * rewrite IH. split; [by constructor | by inversion 1].
  - intros Hf. destruct (find_truthy r key) as [E|E]; rewrite Hf in E; done.
Qed.

(** An entry of the grandparent is found through two stores without one. *)
Lemma find_grandparent_entry :
  find grandchild_store "k" = Some (HandlerString "parent")
  ∧ chain grandchild_store = [∅; ∅; {["k" := HandlerString "parent"]}].
Proof. split; reflexivity. Qed.

(** * Further properties: notifier calls of a dispatch *)

(** One descriptor calls the notifier of the registry at most once. *)
Lemma descriptor_notifications (n : Notifier) (error : Failure)
  (options : ErrorHandlerObject) :
  notifications (descriptor_trace n error options) = []
  ∨ ∃ sent, notifications (descriptor_trace n error options) = [(n, sent)].
Proof.
  rewrite notifications_descriptor_trace.
  destruct (run_hook _ _ _) as [t|options1]; [by left|].
  destruct (truthy _); [by left | right; by eexists].
Qed.

Lemma adds_nothing (n : Notifier) (tr : list Event) : adds_at_most_one_call n tr tr.
Proof. exists []. split; [by rewrite app_nil_r | by left]. Qed.

Lemma adds_descriptor (error : Failure) (options : ErrorHandlerObject) (s : State) :
  adds_at_most_one_call (notifier (this s)) (trace s)
    (trace (after_descriptor error options s)).
Proof.
  exists (descriptor_trace (notifier (this s)) error options). split; [done|].
  destruct (descriptor_notifications (notifier (this s)) error options)
    as [E|(sent & E)]; rewrite E; [by left | right; by eexists].
Qed.

(** The course of [handleError] depends on the registry only through the
    answers of [find]: on two states where [find] agrees, both calls return
    [false], or both execute the same descriptor, or both throw what the
    same resolver function threw. *)
Lemma handleError_ext (seek : Seek) (error : Failure) (s s' : State) :
  (∀ key, find (this s) key = find (this s') key) ->
  (handleError seek error s = (Returned false, s)
   ∧ handleError seek error s' = (Returned false, s'))
  ∨ (∃ options, executes seek error s options
       ∧ handleError seek error s = run_descriptor error options s
       ∧ handleError seek error s' = run_descriptor error options s')
  ∨ (∃ t, resolver_threw seek error s t
       ∧ handleError seek error s = (Threw t, s)
       ∧ handleError seek error s' = (Threw t, s')).
Proof.
  intros Hfind. destruct seek as [k|keys].
  - simpl. rewrite !handleError_key_run, <- Hfind.
    destruct (find (this s) k) as [h|] eqn:Ef; [|by left].
    destruct (resolver_throws h error) as [t|] eqn:Et.
    { right; right. exists t. split; [|done]. by exists k, h. }
    destruct (resolve h error) as [o|] eqn:Er; [|by left].
    right; left. exists o. split; [|done]. by exists k, h.
  - induction keys as [|key keys IH]; [by left|].
    rewrite !handleError_keys_cons.
    assert (Hlater :
      (handleError (SeekKeys keys) error s = (Returned false, s)
       ∧ handleError (SeekKeys keys) error s' = (Returned false, s'))
      ∨ (∃ options, executes (SeekKeys (key :: keys)) error s options
           ∧ handleError (SeekKeys keys) error s = run_descriptor error options s
           ∧ handleError (SeekKeys keys) error s' = run_descriptor error options s')
      ∨ (∃ t, resolver_threw (SeekKeys (key :: keys)) error s t
           ∧ handleError (SeekKeys keys) error s = (Threw t, s)
           ∧ handleError (SeekKeys keys) error s' = (Threw t, s'))).
    { destruct IH as [IH|[(o & Hex & IH)|(t & Hth & IH)]]; [by left|right..].
      - left. exists o. split; [by apply executes_later | done].
      - right. exists t. split; [by apply resolver_threw_later | done]. }
    destruct (is_defined key) eqn:Ed; [|done].
    simpl. rewrite !handleError_key_run, <- Hfind.
    destruct (find (this s) (String_ key)) as [h|] eqn:Ef; [|done].
    destruct (resolver_throws h error) as [t|] eqn:Et.
    { right; right. exists t. split; [|done]. exists (String_ key), h.
      split; [|done]. exists key. split; [apply list_elem_of_here | done]. }
    destruct (resolve h error) as [o|] eqn:Er; [|done].
    right; left. exists o. split; [by eapply executes_here | done].
Qed.

(** X14: [setNotifier] with something that is not a function changes
    nothing.  With a function [fn], [find] answers as before, so a later
    [handleError] takes the course it would have taken before: it returns
    [false], or throws what the same resolver function threw, or executes
    the same descriptor, now with [fn] for notifier; and the only notifier it
    calls, at most once, is [fn]. *)
Theorem setNotifier_then_handleError (fn : Notifier) (seek : Seek)
  (error : Failure) (s : State) :
  let s' := snd (setNotifier (Some fn) s) in
  setNotifier None s = (Returned tt, s)
  ∧ notifier (this s') = fn
  ∧ (∀ key, find (this s') key = find (this s) key)
  ∧ ((handleError seek error s = (Returned false, s)
      ∧ handleError seek error s' = (Returned false, s'))
     ∨ (∃ options, executes seek error s options
          ∧ handleError seek error s = run_descriptor error options s
          ∧ handleError seek error s' = run_descriptor error options s')
     ∨ (∃ t, resolver_threw seek error s t
          ∧ handleError seek error s = (Threw t, s)
          ∧ handleError seek error s' = (Threw t, s')))
  ∧ adds_at_most_one_call fn (trace s) (trace (snd (handleError seek error s'))).
Proof.
  intros s'.
  assert (Hfind : ∀ key, find (this s') key = find (this s) key)
    by (intros key; by apply find_ext).
  split; [done|]. split; [done|]. split; [exact Hfind|]. split.
  - apply handleError_ext. intros key. by rewrite Hfind.
  - change fn with (notifier (this s')). change (trace s) with (trace s').
    handleError_split seek error s' o Hex;
      [apply adds_nothing | apply adds_descriptor | apply adds_nothing].
Qed.

(** X15: a call of [responseErrorHandler] only appends to the trace, and
    what it appends holds at most one call of a notifier, which is the
    notifier of the registry the call was made on, also when the handler
    was found on a parent. *)
Theorem responseErrorHandler_notifies_at_most_once (error : Failure)
  (direct : bool) (s : State) :
  adds_at_most_one_call (notifier (this s)) (trace s)
    (trace (snd (responseErrorHandler error direct s))).
Proof.
  unfold responseErrorHandler. destruct (is_null error); [apply adds_nothing|].
  destruct error as [e|name msg|v]; [| |apply adds_nothing].
  - unfold handleAxiosError. destruct (negb direct && _); [apply adds_nothing|].
    destruct (handleAxiosError_resolve_cases e s)
      as [(o & _ & E & _)|[(o & _ & E)|[(t & _ & E)|(E & _)]]]; rewrite E;
      [apply adds_descriptor | apply adds_descriptor
       | apply adds_nothing | apply adds_nothing].
  - unfold bind.
    handleError_split (SeekKey name) (ErrorFailure name msg) s o Hex;
      [apply adds_nothing | apply adds_descriptor | apply adds_nothing].
Qed.

Lemma displayed_app (has_alert : bool) (tr1 tr2 : list Event) :
  displayed has_alert (tr1 ++ tr2)
  = displayed has_alert tr1 ++ displayed has_alert tr2.
Proof. apply omap_app. Qed.

(** What the default notifier displays is read off the notifier calls. *)
Lemma displayed_notifications (has_alert : bool) (tr : list Event) :
  displayed has_alert tr
  = omap (fun call : Notifier * object =>
            match call.1 with
            | defaultNotifier => Some (defaultNotifier_run has_alert call.2)
            | customNotifier _ _ => None
            end) (notifications tr).
Proof.
  induction tr as [|e tr IH]; [done|].
  change (e :: tr) with ([e] ++ tr).
  rewrite displayed_app, notifications_app, omap_app, IH.
  by destruct e as [| [|] |].
Qed.

(** X16: on a registry that kept the default notifier, executing a
    descriptor whose [before] hook, if any, returns and leaves it not
    silent, with a string message and a payload that has no [type] and no
    [message], displays ["[negative] "] followed by that message, once:
    through [window.alert] where there is one, through [console.error]
    otherwise. *)
Theorem defaultNotifier_displays (has_alert : bool) (error : Failure)
  (options options1 : ErrorHandlerObject) (m : string) (s : State) :
  notifier (this s) = defaultNotifier ->
  run_hook (before options) error options = inr options1 ->
  message options1 = Some (VString m) ->
  silent options1 ≠ Some true ->
  obj_has "type" (default [] (notify options1)) = false ->
  obj_has "message" (default [] (notify options1)) = false ->
  displayed has_alert
    (trace (snd (handleErrorObject (A := unit) error options s)))
  = displayed has_alert (trace s) ++
    [if has_alert then Alert ("[negative] " ++ m)%string
     else ConsoleError ("[negative] " ++ m)%string].
Proof.
  intros Hn Hb Hm Hs Htype Hmsg. rewrite handleErrorObject_run.
  unfold run_descriptor, after_descriptor. simpl.
  rewrite displayed_app. f_equal.
  rewrite displayed_notifications, notifications_descriptor_trace, Hb, Hn.
  assert (Hq : truthy (of_boolean (silent options1)) = false)
    by by destruct (silent options1) as [[|]|].
  rewrite Hq. simpl. unfold defaultNotifier_run, NotifierOptions.
  rewrite !obj_get_spread_absent, Hm by done. simpl.
  by destruct has_alert.
Qed.

Lemma defaultNotifier_displays_witness :
  displayed false
    (trace (snd (handleErrorObject (A := unit) sample_error
                   (descriptor_of_string "erreur 1")
                   (fresh (new_ErrorHandlerRegistry None None None)))))
  = [ConsoleError "[negative] erreur 1"].
Proof.
  apply (defaultNotifier_displays false sample_error
           (descriptor_of_string "erreur 1") (descriptor_of_string "erreur 1")
           "erreur 1" (fresh (new_ErrorHandlerRegistry None None None)));
    (reflexivity || discriminate).
Defined.

(** X26: when the notifier throws, its exception is what [handleErrorObject]
    throws: the [after] hook is not called and no [ApiError] is built. *)
Theorem notifier_exception_escapes (error : Failure)
  (options options1 : ErrorHandlerObject) (t : Thrown) (s : State) :
  run_hook (before options) error options = inr options1 ->
  silent options1 ≠ Some true ->
  notifier_throws (notifier (this s)) (NotifierOptions options1) = Some t ->
  handleErrorObject (A := unit) error options s
  = (Threw t,
     {| this := this s;
        trace := trace s ++
          hook_events BeforeCalled (before options) error options ++
          [NotifierCalled (notifier (this s)) (NotifierOptions options1)] |}).
Proof.
  intros Hb Hs Hn. rewrite handleErrorObject_run.
  unfold run_descriptor, descriptor_raises, after_descriptor, descriptor_trace,
    execute, notifier_raises, notifier_events.
  assert (Hq : truthy (of_boolean (silent options1)) = false)
    by by destruct (silent options1) as [[|]|].
  by rewrite Hb, Hq, Hn.
Qed.

(** A descriptor with an [after] hook on a registry whose notifier throws. *)
Lemma notifier_exception_escapes_witness :
  handleErrorObject (A := unit) sample_error descriptor_failing_after
    (fresh broken_registry)
  = (Threw (ThrowError "notifier down"),
     {| this := broken_registry;
        trace := [NotifierCalled broken_notifier
                    [("type", VString "negative"); ("message", VString "m")]] |}).
Proof.
  apply (notifier_exception_escapes sample_error descriptor_failing_after
           descriptor_failing_after (ThrowError "notifier down")
           (fresh broken_registry)); (reflexivity || discriminate).
Defined.

(** * Further properties: failures that are not Axios failures *)

(** X17: [null] raises a plain [Error] and any other value that is not an
    [Error] is thrown back as it is, without a lookup or a callback; an
    [Error] for whose [name] no descriptor is executed is thrown back as it
    is too, in the state the call started from; and when a descriptor is
    executed for its [name], what the call throws is what the descriptor
    raises. *)
Theorem non_axios_failures (direct : bool) (s : State) :
  responseErrorHandler (OtherFailure VNull) direct s
  = (Threw (ThrowError "Unrecoverable error: error is null"), s)
  ∧ (∀ v, v ≠ VNull ->
       responseErrorHandler (OtherFailure v) direct s
       = (Threw (ThrowFailure (OtherFailure v)), s))
  ∧ (∀ name msg,
       fst (handleError (SeekKey name) (ErrorFailure name msg) s) = Returned false ->
       responseErrorHandler (ErrorFailure name msg) direct s
       = (Threw (ThrowFailure (ErrorFailure name msg)), s))
  ∧ (∀ name msg handler options,
       find (this s) name = Some handler ->
       resolve handler (ErrorFailure name msg) = Some options ->
       responseErrorHandler (ErrorFailure name msg) direct s
       = run_descriptor (ErrorFailure name msg) options s).
Proof.
  split; [done|split; [|split]].
  - intros v Hv. by destruct v.
  - intros name msg Hf. unfold responseErrorHandler, bind.
    change (is_null (ErrorFailure name msg)) with false. cbv beta iota.
    by rewrite (handleError_false_state _ _ _ Hf).
  - intros name msg handler options Hf Hr. unfold responseErrorHandler, bind.
    simpl. by rewrite (handleError_key_resolved _ _ _ _ _ Hf Hr).
Qed.

(** The branches of [responseErrorHandler] by the tests of the source: a
    value on which neither [isAxiosError] nor [instanceof Error] holds goes
    to the final [throw error]. *)
Lemma responseErrorHandler_not_an_error (error : Failure) (direct : bool)
  (s : State) :
  is_null error = false -> isAxiosError error = false ->
  instanceof_Error error = false ->
  responseErrorHandler error direct s = (Threw (ThrowFailure error), s).
Proof. by destruct error as [e|name msg|[]]. Qed.

(** The tests 'null lance une erreur critique' and 'Error simple sans
    handler relaye l'erreur'. *)
Lemma non_axios_failures_witness :
  responseErrorHandler sample_error false (fresh spied_registry)
  = (Threw (ThrowFailure sample_error), fresh spied_registry).
Proof.
  destruct (non_axios_failures false (fresh spied_registry))
    as (_ & _ & Herror & _).
  apply Herror. reflexivity.
Defined.

(** X18: [direct] makes a difference only for an Axios failure whose
    [config.raw] is truthy: on every other failure the two calls agree. *)
Theorem direct_only_matters_for_raw (error : Failure) (s : State) :
  match error with
  | AxiosFailure e => truthy (of_boolean (error_raw e)) = false
  | _ => True
  end ->
  responseErrorHandler error true s = responseErrorHandler error false s.
Proof.
  destruct error as [e|name msg|v]; [|done..].
  intros Hraw. unfold responseErrorHandler. simpl.
  rewrite !handleAxiosError_not_raw; auto.
Qed.

Lemma direct_only_matters_for_raw_witness :
  responseErrorHandler (AxiosFailure axios_boom) true (fresh spied_registry)
  = responseErrorHandler (AxiosFailure axios_boom) false (fresh spied_registry).
Proof.
  apply (direct_only_matters_for_raw (AxiosFailure axios_boom)
           (fresh spied_registry)). reflexivity.
Defined.

(** * Further properties: Axios failures *)

Lemma declined_all (keys : list value) (error : Failure) (s : State) :
  Forall (declines error s) keys ->
  handleError (SeekKeys keys) error s = (Returned false, s).
Proof.
  intros Hall. by rewrite <- (app_nil_r keys), handleError_keys_skip.
Qed.

(** The fallback of [handleAxiosError]: no usable body message, no key with
    an executable handler, and something to fall back to. *)
Lemma axios_fallback_run (error : AxiosError) (s : State) :
  nonempty_string (prop (error_data error) "message") = false ->
  Forall (declines (AxiosFailure error) s) (seekers error) ->
  has_fallback_message error = true ->
  handleAxiosError_resolve error s
  = raised_with
      (nullish (prop (error_data error) "message")
         (nullish (prop (error_data error) "description")
            (VString (error_message error))))
      (error_silent error) s.
Proof.
  intros Hbody Hkeys Hfb.
  rewrite handleAxiosError_resolve_run, Hbody, declined_all, Hfb by done.
  apply run_plain_descriptor.
  destruct (prop (error_data error) "message"); try done;
    by destruct (prop (error_data error) "description").
Qed.





(** X21: for an Axios failure (not raw-overridden) without a non-empty body
    message, the keys [data.code], [error.code], [error.name],
    [String(data.status)], [String(response.status)] are searched in that
    order: the first one that is defined and whose dispatch does not return
    [false] decides the call, whatever is registered for the later ones: the
    descriptor of its handler is executed, or its handler is a resolver
    function that throws and the call throws the same. *)
Theorem axios_first_key_decides (error : AxiosError) (direct : bool) (s : State)
  (pre post : list value) (key : value) :
  direct = true ∨ truthy (of_boolean (error_raw error)) = false ->
  nonempty_string (prop (error_data error) "message") = false ->
  seekers error = pre ++ key :: post ->
  Forall (declines (AxiosFailure error) s) pre ->
  ¬ declines (AxiosFailure error) s key ->
  ∃ handler,
    find (this s) (String_ key) = Some handler
    ∧ ((∃ options,
          resolve handler (AxiosFailure error) = Some options
          ∧ responseErrorHandler (AxiosFailure error) direct s
            = run_descriptor (AxiosFailure error) options s)
       ∨ (∃ t,
            resolver_throws handler (AxiosFailure error) = Some t
            ∧ responseErrorHandler (AxiosFailure error) direct s = (Threw t, s))).
Proof.
  intros Hraw Hbody Hseek Hpre Hkey. unfold responseErrorHandler. simpl.
  rewrite handleAxiosError_not_raw, handleAxiosError_resolve_run, Hbody, Hseek
    by done.
  rewrite handleError_keys_skip, handleError_keys_cons by done.
  destruct (is_defined key) eqn:Hd; [|destruct Hkey; by left].
  assert (Hrun := handleError_key_run (String_ key) (AxiosFailure error) s).
  change (handleError_key (String_ key) (AxiosFailure error) s)
    with (handleError (SeekKey (String_ key)) (AxiosFailure error) s) in Hrun.
  destruct (find (this s) (String_ key)) as [h|] eqn:Ef;
    [|destruct Hkey; right; by rewrite Hrun].
  exists h. split; [done|].
  destruct (resolver_throws h (AxiosFailure error)) as [t|] eqn:Et.
  { right. exists t. by rewrite Hrun. }
  destruct (resolve h (AxiosFailure error)) as [o|] eqn:Er;
    [|destruct Hkey; right; by rewrite Hrun].
  left. exists o. by rewrite Hrun.
Qed.

(** A handler registered for the HTTP status is reached through
    [response.status] when the failure has no code and no handler for its
    name. *)
Lemma axios_first_key_decides_witness :
  ∃ handler,
    find registry_404 "404" = Some handler
    ∧ ((∃ options,
          resolve handler (AxiosFailure axios_404) = Some options
          ∧ responseErrorHandler (AxiosFailure axios_404) false (fresh registry_404)
            = run_descriptor (AxiosFailure axios_404) options (fresh registry_404))
       ∨ (∃ t,
            resolver_throws handler (AxiosFailure axios_404) = Some t
            ∧ responseErrorHandler (AxiosFailure axios_404) false
                (fresh registry_404)
              = (Threw t, fresh registry_404))).
Proof.
  apply (axios_first_key_decides axios_404 false (fresh registry_404)
           [VUndefined; VUndefined; VString "AxiosError"; VUndefined] []
           (VString "404")).
  - by right.
  - reflexivity.
  - reflexivity.
  - repeat (constructor; [(by left) || (by right)|]). constructor.
  - intros [Hd|Hf]; [discriminate Hd | vm_compute in Hf; discriminate Hf].
Defined.

(** X22: with [config.silent] true, an Axios failure that has a non-empty
    body message, or no key with an executable handler, is dispatched without
    any call of the notifier. *)
Theorem config_silent_on_built_descriptors (error : AxiosError) (direct : bool)
  (s : State) :
  error_silent error = Some true ->
  nonempty_string (prop (error_data error) "message") = true
  ∨ Forall (declines (AxiosFailure error) s) (seekers error) ->
  notifications (trace (snd (responseErrorHandler (AxiosFailure error) direct s)))
  = notifications (trace s).
Proof.
  intros Hs Hcase. unfold responseErrorHandler, handleAxiosError. simpl.
  destruct (negb direct && _); [done|].
  assert (Hquiet : ∀ m, notifications
            (trace (snd (run_descriptor (A := value) (AxiosFailure error)
               {| message := m; before := None; after := None;
                  silent := error_silent error; notify := None |} s)))
            = notifications (trace s)).
  { intros m. unfold run_descriptor, after_descriptor. simpl.
    rewrite notifications_app, notifications_descriptor_trace. simpl.
    rewrite Hs. simpl. by rewrite app_nil_r. }
  rewrite handleAxiosError_resolve_run.
  destruct (nonempty_string (prop (error_data error) "message")) eqn:Hbody.
  - apply Hquiet.
  - destruct Hcase as [?|Hkeys]; [done|]. rewrite declined_all by done.
    destruct (has_fallback_message error); [apply Hquiet | done].
Qed.

(** The test 'AxiosError silent supprime la notification'. *)
Lemma config_silent_on_built_descriptors_witness :
  notifications
    (trace (snd (responseErrorHandler (AxiosFailure (axios_msg_API true)) false
                   (fresh spied_registry))))
  = [].
Proof.
  apply (config_silent_on_built_descriptors (axios_msg_API true) false
           (fresh spied_registry)); [reflexivity | by left].
Defined.

(** * Further properties: [createDealWith] *)

(** The registry that a closure of [createDealWith] runs on. *)
Lemma local_registry_run (globalHandlers : ErrorHandlerRegistry)
  (notifier : option Notifier) (solutions : list (string * ErrorHandler))
  (ignoreGlobal : bool) :
  local_registry globalHandlers notifier solutions ignoreGlobal
  = {| handlers := fold_left (fun m kv => <[kv.1 := kv.2]> m) solutions ∅;
       parent := if ignoreGlobal then None else Some globalHandlers;
       notifier := default defaultNotifier notifier |}.
Proof.
  unfold local_registry, new_ErrorHandlerRegistry, after_call.
  by rewrite registerMany_run.
Qed.

(** The keys of an Axios failure whose data has no [code]: the first key
    that is tried is [error.code]. *)
Lemma handleError_seekers_code (error : AxiosError) (code : string) (s : State) :
  prop (error_data error) "code" = VUndefined ->
  error_code error = Some code ->
  fst (handleError (SeekKey code) (AxiosFailure error) s) ≠ Returned false ->
  handleError (SeekKeys (seekers error)) (AxiosFailure error) s
  = handleError (SeekKey code) (AxiosFailure error) s.
Proof.
  intros Hdc Hc Hne. unfold seekers. fold (error_data error).
  rewrite Hdc, Hc, handleError_keys_declined by by left.
  rewrite handleError_keys_cons. simpl is_defined. cbv iota.
  change (String_ (of_string (Some code))) with code.
  by destruct (handleError (SeekKey code) (AxiosFailure error) s)
    as [[[|]|t] s'].
Qed.

(** X23: a closure of [createDealWith] executes the local solution for
    [error.code] when there is one (its last occurrence in [solutions], not
    the empty string, resolving to a descriptor), whatever the global
    registry holds for that code and whether or not it is ignored; the
    notifier it calls is the closure's, the default one if none was given.
    (For a failure with no non-empty body message and no [data.code].) *)
Theorem createDealWith_local_wins (globalHandlers : ErrorHandlerRegistry)
  (notifier : option Notifier) (l1 l2 : list (string * ErrorHandler))
  (ignoreGlobal : bool) (error : AxiosError) (tr : list Event)
  (code : string) (handler : ErrorHandler) (options : ErrorHandlerObject) :
  nonempty_string (prop (error_data error) "message") = false ->
  prop (error_data error) "code" = VUndefined ->
  error_code error = Some code ->
  code ∉ l2.*1 ->
  handler_truthy (Some handler) = true ->
  resolve handler (AxiosFailure error) = Some options ->
  createDealWith globalHandlers notifier (l1 ++ (code, handler) :: l2)
    ignoreGlobal (AxiosFailure error) tr
  = (Threw (descriptor_raises (default defaultNotifier notifier)
            (AxiosFailure error) options),
     {| this := local_registry globalHandlers notifier
                  (l1 ++ (code, handler) :: l2) ignoreGlobal;
        trace := tr ++ descriptor_trace (default defaultNotifier notifier)
                         (AxiosFailure error) options |}).
Proof.
  intros Hbody Hdc Hc Hl2 Ht Hr.
  change (createDealWith globalHandlers notifier (l1 ++ (code, handler) :: l2)
            ignoreGlobal (AxiosFailure error) tr)
    with (handleAxiosError error true
            {| this := local_registry globalHandlers notifier
                         (l1 ++ (code, handler) :: l2) ignoreGlobal;
               trace := tr |}).
  set (s := {| this := _; trace := tr |}).
  assert (Hfind : find (this s) code = Some handler).
  { apply find_local; [|done]. unfold s. simpl. rewrite local_registry_run. simpl.
    rewrite fold_left_app. simpl. rewrite fold_insert_notin by done.
    apply lookup_insert_eq. }
  assert (Hkey : handleError (SeekKey code) (AxiosFailure error) s
                 = run_descriptor (AxiosFailure error) options s).
  { simpl. by rewrite (handleError_key_resolved _ _ _ _ _ Hfind Hr). }
  rewrite handleAxiosError_not_raw, handleAxiosError_resolve_run, Hbody by by left.
  rewrite (handleError_seekers_code error code s), Hkey
    by (done || by rewrite Hkey).
  unfold run_descriptor, after_descriptor, s. simpl.
  by rewrite local_registry_run.
Qed.

(** The test of [createDealWith], [dealWith({ TEST: 'local' }, false)]. *)
Lemma createDealWith_local_wins_witness :
  createDealWith global_TEST (Some spy) [("TEST", HandlerString "local")] false
    (AxiosFailure axios_TEST) []
  = (Threw (ThrowApiError "local"),
     {| this := local_registry global_TEST (Some spy)
                  [("TEST", HandlerString "local")] false;
        trace := [NotifierCalled spy [("type", VString "negative");
                                      ("message", VString "local")]] |}).
Proof.
  exact (createDealWith_local_wins global_TEST (Some spy) [] [] false axios_TEST
           [] "TEST" (HandlerString "local") (descriptor_of_string "local")
           eq_refl eq_refl eq_refl (not_elem_of_nil "TEST") eq_refl eq_refl).
Defined.

(** X24: when [solutions] has no entry for [error.code] and the global
    registry is not ignored, the closure executes the handler that the global
    registry finds for that code, and calls the closure's notifier, not the
    global registry's.  (Same failures as above.) *)
Theorem createDealWith_falls_back_to_global (globalHandlers : ErrorHandlerRegistry)
  (notifier : option Notifier) (solutions : list (string * ErrorHandler))
  (error : AxiosError) (tr : list Event)
  (code : string) (handler : ErrorHandler) (options : ErrorHandlerObject) :
  nonempty_string (prop (error_data error) "message") = false ->
  prop (error_data error) "code" = VUndefined ->
  error_code error = Some code ->
  code ∉ solutions.*1 ->
  find globalHandlers code = Some handler ->
  resolve handler (AxiosFailure error) = Some options ->
  createDealWith globalHandlers notifier solutions false (AxiosFailure error) tr
  = (Threw (descriptor_raises (default defaultNotifier notifier)
            (AxiosFailure error) options),
     {| this := local_registry globalHandlers notifier solutions false;
        trace := tr ++ descriptor_trace (default defaultNotifier notifier)
                         (AxiosFailure error) options |}).
Proof.
  intros Hbody Hdc Hc Hno Hg Hr.
  change (createDealWith globalHandlers notifier solutions false
            (AxiosFailure error) tr)
    with (handleAxiosError error true
            {| this := local_registry globalHandlers notifier solutions false;
               trace := tr |}).
  set (s := {| this := _; trace := tr |}).
  assert (Hfind : find (this s) code = Some handler).
  { rewrite <- Hg. unfold s. simpl. rewrite local_registry_run.
    apply find_delegates; [done|]. simpl.
    by rewrite fold_insert_notin, lookup_empty. }
  assert (Hkey : handleError (SeekKey code) (AxiosFailure error) s
                 = run_descriptor (AxiosFailure error) options s).
  { simpl. by rewrite (handleError_key_resolved _ _ _ _ _ Hfind Hr). }
  rewrite handleAxiosError_not_raw, handleAxiosError_resolve_run, Hbody by by left.
  rewrite (handleError_seekers_code error code s), Hkey
    by (done || by rewrite Hkey).
  unfold run_descriptor, after_descriptor, s. simpl.
  by rewrite local_registry_run.
Qed.

(** The test of [createDealWith], [dealWith({ TESTB: 'local' }, false)]: the
    global message, through the local notifier. *)
Lemma createDealWith_falls_back_to_global_witness :
  createDealWith global_TEST (Some spy) [("TESTB", HandlerString "local")] false
    (AxiosFailure axios_TEST) []
  = (Threw (ThrowApiError "global"),
     {| this := local_registry global_TEST (Some spy)
                  [("TESTB", HandlerString "local")] false;
        trace := [NotifierCalled spy [("type", VString "negative");
                                      ("message", VString "global")]] |}).
Proof.
  refine (createDealWith_falls_back_to_global global_TEST (Some spy)
            [("TESTB", HandlerString "local")] axios_TEST [] "TEST"
            (HandlerString "global") (descriptor_of_string "global")
            eq_refl eq_refl eq_refl _ eq_refl eq_refl).
  intros [E|E]%elem_of_cons; [discriminate E | by apply elem_of_nil in E].
Defined.

(** X25: with [ignoreGlobal] true the global registry plays no part: for a
    failure without response whose code and name have no entry in
    [solutions], the closure raises the failure's own non-empty message,
    whatever the global registry holds. *)
Theorem createDealWith_ignores_global (globalHandlers : ErrorHandlerRegistry)
  (notifier : option Notifier) (solutions : list (string * ErrorHandler))
  (error : AxiosError) (tr : list Event) :
  error_response error = None ->
  (∀ code, error_code error = Some code -> code ∉ solutions.*1) ->
  error_name error ∉ solutions.*1 ->
  error_message error ≠ "" ->
  createDealWith globalHandlers notifier solutions true (AxiosFailure error) tr
  = raised_with (VString (error_message error)) (error_silent error)
      {| this := local_registry globalHandlers notifier solutions true;
         trace := tr |}.
Proof.
  intros Hresp Hcode Hname Hmsg.
  change (createDealWith globalHandlers notifier solutions true
            (AxiosFailure error) tr)
    with (handleAxiosError error true
            {| this := local_registry globalHandlers notifier solutions true;
               trace := tr |}).
  set (s := {| this := _; trace := tr |}).
  assert (Hdata : error_data error = VUndefined)
    by (unfold error_data; by rewrite Hresp).
  assert (Habsent : ∀ key, key ∉ solutions.*1 ->
            declines (AxiosFailure error) s (VString key)).
  { intros key Hno. right. simpl. rewrite handleError_key_run.
    assert (Hf : find (this s) key = None); [|by rewrite Hf].
    unfold s. simpl. rewrite local_registry_run. simpl.
    by rewrite fold_insert_notin, lookup_empty. }
  rewrite handleAxiosError_not_raw by by left.
  rewrite axios_fallback_run.
  - by rewrite Hdata.
  - by rewrite Hdata.
  - unfold seekers. rewrite Hresp. simpl.
    constructor; [by left|]. constructor.
    { destruct (error_code error) as [c|] eqn:Ec; [|by left].
      apply Habsent. by apply Hcode. }
    constructor; [by apply Habsent|].
    constructor; [by left|]. constructor; [by left|]. constructor.
  - unfold has_fallback_message. rewrite (truthy_nonempty _ Hmsg).
    apply orb_true_r.
Qed.

(** The test of [createDealWith], [dealWith({}, true)]: the global handler
    for [TEST] is not used. *)
Lemma createDealWith_ignores_global_witness :
  createDealWith global_TEST (Some spy) [] true (AxiosFailure axios_TEST) []
  = (Threw (ThrowApiError "Error Message"),
     {| this := local_registry global_TEST (Some spy) [] true;
        trace := [NotifierCalled spy [("type", VString "negative");
                                      ("message", VString "Error Message")]] |}).
Proof.
  refine (createDealWith_ignores_global global_TEST (Some spy) [] axios_TEST []
            eq_refl _ _ _).
  - intros code _. apply not_elem_of_nil.
  - apply not_elem_of_nil.
  - discriminate.
Defined.
